(** * comic_to_sparql: a shallow embedding of the streaming converter

    This development embeds [src/infra/blazegraph/scripts/comic_to_sparql.py]:
    the URI and literal helpers, the heuristic helpers, the entity triple
    generators, the hand-rolled streaming array scanner [stream_json_array],
    and the driver [main].

    Python text ([str]) is a list of Unicode code points ([pystr]).  Python
    exceptions are the constructors of [exn]; a computation that may raise
    returns [res A].  Python floats are IEEE binary64 numbers, modelled by the
    Standard Library's [spec_float] at precision 53 and [emax] 1024 with its
    round-to-nearest-even operations.  The two Unicode tables Python consults
    ([str.lower] and [str.isprintable]) are parameters of the generators; every
    other library function used by the script ([urllib.parse.quote],
    [json.loads], [str()] of decoded values, float formatting) is written out. *)

From Stdlib Require Import ZArith NArith List String Ascii Bool Lia.
From Stdlib Require Import SpecFloat.
Import ListNotations.

Open Scope Z_scope.

(** ** Python text, exceptions and results *)

Definition pystr := list N.

Definition is_nil {A} (l : list A) : bool := match l with [] => true | _ => false end.

(** A Rocq ASCII string literal as Python text. *)
Definition lit (s : string) : pystr :=
  map N_of_ascii (list_ascii_of_string s).

(** The code point of a one-character literal. *)
Definition ch (s : string) : N :=
  match s with String a _ => N_of_ascii a | EmptyString => 0%N end.

(** The double quote and the backslash. *)
Definition dq : N := 34%N.
Definition bs : N := 92%N.

Inductive exn :=
| KeyError | TypeError | AttributeError | ValueError | OverflowError
| ZeroDivisionError | UnicodeEncodeError | JSONDecodeError.

Inductive res (A : Type) :=
| Ok (a : A)
| Err (e : exn).
Arguments Ok {A} a.
Arguments Err {A} e.

Definition bind {A B} (m : res A) (f : A -> res B) : res B :=
  match m with Ok a => f a | Err e => Err e end.

Notation "'let*' x ':=' m 'in' f" := (bind m (fun x => f))
  (at level 200, x name, m at level 100, f at level 200).
Notation "'let*' ' p ':=' m 'in' f" := (bind m (fun x => match x with p => f end))
  (at level 200, p pattern, m at level 100, f at level 200).

(** [str.isspace] of CPython, used by [str.strip] and [str.rstrip]. *)
Definition py_isspace (c : N) : bool :=
  ((9 <=? c) && (c <=? 13))%N || ((28 <=? c) && (c <=? 32))%N
  || (c =? 133)%N || (c =? 160)%N || (c =? 5760)%N
  || ((8192 <=? c) && (c <=? 8202))%N
  || (c =? 8232)%N || (c =? 8233)%N || (c =? 8239)%N || (c =? 8287)%N
  || (c =? 12288)%N.

Fixpoint lstrip_by (p : N -> bool) (s : pystr) : pystr :=
  match s with
  | [] => []
  | c :: r => if p c then lstrip_by p r else s
  end.

Definition rstrip_by (p : N -> bool) (s : pystr) : pystr :=
  rev (lstrip_by p (rev s)).

(** [s.strip()], [s.rstrip()] and [s.rstrip(',')]. *)
Definition py_strip (s : pystr) : pystr := rstrip_by py_isspace (lstrip_by py_isspace s).
Definition py_rstrip (s : pystr) : pystr := rstrip_by py_isspace s.
Definition rstrip_comma (s : pystr) : pystr := rstrip_by (fun c => (c =? ch ",")%N) s.

Fixpoint pystr_eqb (a b : pystr) : bool :=
  match a, b with
  | [], [] => true
  | x :: a', y :: b' => (x =? y)%N && pystr_eqb a' b'
  | _, _ => false
  end.

Fixpoint prefixb (p s : pystr) : bool :=
  match p, s with
  | [], _ => true
  | x :: p', y :: s' => (x =? y)%N && prefixb p' s'
  | _ :: _, [] => false
  end.

(** [p in s] for two Python strings: substring membership. *)
Fixpoint py_contains (s p : pystr) : bool :=
  prefixb p s || match s with [] => false | _ :: s' => py_contains s' p end.

(** [s.startswith(p)] and [s.endswith(p)]. *)
Definition startswith (s p : pystr) : bool := prefixb p s.
Definition endswith (s p : pystr) : bool := prefixb (rev p) (rev s).

(** [s.replace(a, b)] for one-character [a] and [b]. *)
Definition replace_char (a b : N) (s : pystr) : pystr :=
  map (fun c => if (c =? a)%N then b else c) s.

(** ** [urllib.parse.quote(s, safe='')] and [safe_uri] *)

(** UTF-8 encoding of a code point; a lone surrogate raises
    [UnicodeEncodeError] under the default [errors='strict']. *)
Definition utf8_char (c : N) : res (list N) :=
  if (c <? 128)%N then Ok [c]
  else if (c <? 2048)%N then Ok [192 + c / 64; 128 + c mod 64]%N
  else if ((55296 <=? c) && (c <=? 57343))%N then Err UnicodeEncodeError
  else if (c <? 65536)%N then
    Ok [224 + c / 4096; 128 + (c / 64) mod 64; 128 + c mod 64]%N
  else if (c <? 1114112)%N then
    Ok [240 + c / 262144; 128 + (c / 4096) mod 64;
        128 + (c / 64) mod 64; 128 + c mod 64]%N
  else Err UnicodeEncodeError (* beyond U+10FFFF: no Python [str] holds one *).

Fixpoint utf8_encode (s : pystr) : res (list N) :=
  match s with
  | [] => Ok []
  | c :: r => let* b := utf8_char c in let* bs := utf8_encode r in Ok (b ++ bs)
  end.

(** [_ALWAYS_SAFE]: ASCII letters, digits and [_.-~]. *)
Definition always_safe (b : N) : bool :=
  ((ch "A" <=? b) && (b <=? ch "Z"))%N || ((ch "a" <=? b) && (b <=? ch "z"))%N
  || ((ch "0" <=? b) && (b <=? ch "9"))%N
  || (b =? ch "_")%N || (b =? ch ".")%N || (b =? ch "-")%N || (b =? ch "~")%N.

Definition hex_upper (d : N) : N :=
  if (d <? 10)%N then (ch "0" + d)%N else (ch "A" + d - 10)%N.

(** The quoter of [quote_from_bytes]: a safe byte stays, any other becomes
    ['%{:02X}']. *)
Definition quote_byte (b : N) : pystr :=
  if always_safe b then [b] else [ch "%"; hex_upper (b / 16); hex_upper (b mod 16)].

Definition quote_from_bytes (bs : list N) : pystr := flat_map quote_byte bs.

(** [quote(string, safe='')]: an empty string is returned as is, any other is
    encoded to UTF-8 and quoted byte by byte. *)
Definition quote (s : pystr) : res pystr :=
  match s with
  | [] => Ok []
  | _ => let* bs := utf8_encode s in Ok (quote_from_bytes bs)
  end.

(** [safe_uri(s)] on a [str] argument (so [str(s)] is [s]). *)
Definition safe_uri (s : pystr) : res pystr :=
  quote (replace_char (ch ":") (ch "_")
           (replace_char (ch "/") (ch "_") (replace_char (ch " ") (ch "_") s))).


(** ** Python floats (IEEE binary64) and numbers *)

Definition pyfloat := spec_float.
Definition fprec : Z := 53.
Definition femax : Z := 1024.

Definition f_add := SFadd fprec femax.
Definition f_sub := SFsub fprec femax.
Definition f_mul := SFmul fprec femax.
Definition f_div := SFdiv fprec femax.

(** Correct rounding of an integer: [float(n)] before its overflow check. *)
Definition round_int (z : Z) : pyfloat := binary_normalize fprec femax z 0 false.

(** Correct rounding of the positive ratio [p / q], the core of [SFdiv] applied to
    the exact integers; [neg] is the sign. *)
Definition round_ratio (neg : bool) (p q : positive) : pyfloat :=
  let '(mz, ez, lz) := SFdiv_core_binary fprec femax (Zpos p) 0 (Zpos q) 0 in
  binary_round_aux fprec femax neg mz ez lz.

(** Correct rounding of [±D * 10^k]: what CPython's [float()] returns for a
    decimal literal (overflow gives an infinity, as [float('1e400')] does). *)
Definition round_decimal (neg : bool) (d : Z) (k : Z) : pyfloat :=
  match d with
  | Zpos p =>
      if 0 <=? k then binary_normalize fprec femax (if neg then - (d * 10 ^ k) else d * 10 ^ k) 0 false
      else round_ratio neg p (Z.to_pos (10 ^ (- k)))
  | _ => S754_zero neg
  end.

(** [float(n)] for a Python [int]: [OverflowError] past the largest float. *)
Definition float_of_int (z : Z) : res pyfloat :=
  match round_int z with
  | S754_infinity _ => Err OverflowError
  | f => Ok f
  end.

Definition f_of_Z (z : Z) : pyfloat := round_int z.

Definition sf_eqb (x y : pyfloat) : bool :=
  match x, y with
  | S754_zero a, S754_zero b => Bool.eqb a b
  | S754_infinity a, S754_infinity b => Bool.eqb a b
  | S754_nan, S754_nan => true
  | S754_finite a m e, S754_finite b m' e' => Bool.eqb a b && Pos.eqb m m' && Z.eqb e e'
  | _, _ => false
  end.

(** A Python number: [int] (also what [bool] behaves as) or [float]. *)
Inductive pynum := PInt (z : Z) | PFloat (f : pyfloat).

Definition as_float (n : pynum) : res pyfloat :=
  match n with PInt z => float_of_int z | PFloat f => Ok f end.

(** Binary [+ - *] of two numbers: [int] op [int] stays exact, otherwise the
    [int] side is converted with [float()] and the float operation applies. *)
Definition num_arith (zop : Z -> Z -> Z) (fop : pyfloat -> pyfloat -> pyfloat)
    (a b : pynum) : res pynum :=
  match a, b with
  | PInt x, PInt y => Ok (PInt (zop x y))
  | _, _ => let* x := as_float a in let* y := as_float b in Ok (PFloat (fop x y))
  end.

Definition num_add := num_arith Z.add f_add.
Definition num_sub := num_arith Z.sub f_sub.
Definition num_mul := num_arith Z.mul f_mul.

Definition sf_is_zero (f : pyfloat) : bool :=
  match f with S754_zero _ => true | _ => false end.

(** True division [a / b]: [ZeroDivisionError] on a zero divisor; [int / int] is
    the correctly rounded quotient ([OverflowError] when it is too large). *)
Definition num_div (a b : pynum) : res pynum :=
  match a, b with
  | PInt x, PInt y =>
      if y =? 0 then Err ZeroDivisionError
      else match Z.sgn x * Z.sgn y, Z.abs x, Z.abs y with
           | _, Z0, _ => Ok (PFloat (S754_zero (y <? 0)))
           | s, Zpos p, Zpos q =>
               match round_ratio (s <? 0) p q with
               | S754_infinity _ => Err OverflowError
               | f => Ok (PFloat f)
               end
           | _, _, _ => Err ZeroDivisionError
           end
  | _, _ =>
      let* x := as_float a in let* y := as_float b in
      if sf_is_zero y then Err ZeroDivisionError else Ok (PFloat (f_div x y))
  end.

(** Exact comparison of an [int] with a [float], as CPython does it. *)
Definition cmp_int_float (z : Z) (f : pyfloat) : option comparison :=
  match f with
  | S754_nan => None
  | S754_infinity s => Some (if s then Gt else Lt)
  | S754_zero _ => Some (Z.compare z 0)
  | S754_finite s m e =>
      let v := if s then Zneg m else Zpos m in
      if 0 <=? e then Some (Z.compare z (v * 2 ^ e))
      else Some (Z.compare (z * 2 ^ (- e)) v)
  end.

Definition num_compare (a b : pynum) : option comparison :=
  match a, b with
  | PInt x, PInt y => Some (Z.compare x y)
  | PFloat x, PFloat y => SFcompare x y
  | PInt x, PFloat y => cmp_int_float x y
  | PFloat x, PInt y => option_map CompOpp (cmp_int_float y x)
  end.

(** [a < b] and [a > b]. *)
Definition num_lt (a b : pynum) : bool :=
  match num_compare a b with Some Lt => true | _ => false end.
Definition num_gt (a b : pynum) : bool :=
  match num_compare a b with Some Gt => true | _ => false end.

(** [min(a, b)] keeps [a] unless [b < a]; [max(a, b)] keeps [a] unless [b > a]. *)
Definition py_min2 (a b : pynum) : pynum := if num_lt b a then b else a.
Definition py_max2 (a b : pynum) : pynum := if num_gt b a then b else a.

(** ** Decimal text of numbers *)

Definition digit_char (d : Z) : N := (ch "0" + Z.to_N d)%N.

Fixpoint pos_digits_aux (fuel : nat) (n : Z) (acc : pystr) : pystr :=
  match fuel with
  | O => acc
  | S f => if n <? 10 then digit_char n :: acc
           else pos_digits_aux f (n / 10) (digit_char (n mod 10) :: acc)
  end.

(** The decimal digits of a non-negative integer. *)
Definition nat_digits (n : Z) : pystr :=
  pos_digits_aux (S (Z.to_nat (Z.log2 n))) n [].

(** [str(n)] for an [int]: CPython refuses more than 4300 digits. *)
Definition int_str (z : Z) : res pystr :=
  let ds := nat_digits (Z.abs z) in
  if (4300 <? List.length ds)%nat then Err ValueError
  else Ok ((if z <? 0 then [ch "-"] else []) ++ ds).

Fixpoint zeros (n : nat) : pystr :=
  match n with O => [] | S k => ch "0" :: zeros k end.

Definition pad_left_zeros (width : nat) (s : pystr) : pystr :=
  zeros (width - List.length s) ++ s.

(** [format(x, '.{prec}f')] for a float: the exact binary value rounded half to
    even at [prec] decimals; the sign of a negative value (and of [-0.0]) kept. *)
Definition format_fixed (prec : nat) (x : pyfloat) : pystr :=
  let scale := 10 ^ Z.of_nat prec in
  let body (n : Z) :=
    nat_digits (n / scale)
    ++ (match prec with O => [] | _ => ch "." :: pad_left_zeros prec (nat_digits (n mod scale)) end) in
  match x with
  | S754_nan => lit "nan"
  | S754_infinity s => (if s then [ch "-"] else []) ++ lit "inf"
  | S754_zero s => (if s then [ch "-"] else []) ++ body 0
  | S754_finite s m e =>
      let n :=
        if 0 <=? e then Zpos m * 2 ^ e * scale
        else
          let num := Zpos m * scale in
          let den := 2 ^ (- e) in
          let q := num / den in
          let r := num mod den in
          match Z.compare (2 * r) den with
          | Lt => q
          | Gt => q + 1
          | Eq => if Z.even q then q else q + 1
          end in
      (if s then [ch "-"] else []) ++ body n
  end.


(** [repr(x)] of a finite non-zero float, step 1: CPython's shortest digit string
    that reads back as [x] (nearest to [x] among the shortest, ties to even).
    [|x| = m * 2^e]; the result [(D, k)] stands for [D * 10^k]. *)
Definition dec_len (n : Z) : Z := Z.of_nat (List.length (nat_digits n)).

Definition shortest_digits (m : positive) (e : Z) : Z * Z :=
  let P := if 0 <=? e then Zpos m * 2 ^ e else Zpos m in
  let Q := if 0 <=? e then 1 else 2 ^ (- e) in
  let fl (k : Z) := if 0 <=? k then P / (Q * 10 ^ k) else (P * 10 ^ (- k)) / Q in
  let reads_back (d k : Z) := sf_eqb (round_decimal false d k) (S754_finite false m e) in
  (* [2V] against [(2 lo + 1) 10^k]: which neighbour is nearer *)
  let cmp_mid (lo k : Z) :=
    if 0 <=? k then Z.compare (2 * P) ((2 * lo + 1) * 10 ^ k * Q)
    else Z.compare (2 * P * 10 ^ (- k)) ((2 * lo + 1) * Q) in
  let fix go (fuel : nat) (n : Z) :=
    match fuel with
    | O => (fl 0, 0) (* not reached: 17 digits always read back *)
    | S f =>
        let k0 := dec_len P - dec_len Q - n + 1 in
        let k := if fl k0 <? 10 ^ (n - 1) then k0 - 1 else k0 in
        let lo := fl k in
        let hi := lo + 1 in
        match reads_back lo k, reads_back hi k with
        | true, true =>
            match cmp_mid lo k with
            | Lt => (lo, k)
            | Gt => (hi, k)
            | Eq => if Z.even lo then (lo, k) else (hi, k)
            end
        | true, false => (lo, k)
        | false, true => (hi, k)
        | false, false => go f (n + 1)
        end
    end in
  go 17%nat 1.

Fixpoint strip_zeros_aux (fuel : nat) (d k : Z) : Z * Z :=
  match fuel with
  | O => (d, k)
  | S f => if (d mod 10 =? 0) && (0 <? d) then strip_zeros_aux f (d / 10) (k + 1) else (d, k)
  end.

(** [repr(x)] of a float ([float_repr_style] 'short', [Py_DTSF_ADD_DOT_0]):
    exponent notation when the decimal point position is [<= -4] or [> 16]. *)
Definition float_repr (x : pyfloat) : pystr :=
  let sign (s : bool) := if s then [ch "-"] else [] in
  match x with
  | S754_nan => lit "nan"
  | S754_infinity s => sign s ++ lit "inf"
  | S754_zero s => sign s ++ lit "0.0"
  | S754_finite s m e =>
      let '(d0, k0) := shortest_digits m e in
      let '(d, k) := strip_zeros_aux (List.length (nat_digits d0)) d0 k0 in
      let ds := nat_digits d in
      let nd := Z.of_nat (List.length ds) in
      let decpt := nd + k in
      sign s ++
      (if (decpt <=? -4) || (16 <? decpt) then
         let x := decpt - 1 in
         firstn 1 ds
         ++ (if 1 <? nd then ch "." :: skipn 1 ds else [])
         ++ [ch "e"; if x <? 0 then ch "-" else ch "+"]
         ++ pad_left_zeros 2 (nat_digits (Z.abs x))
       else if decpt <=? 0 then lit "0." ++ zeros (Z.to_nat (- decpt)) ++ ds
       else if nd <=? decpt then ds ++ zeros (Z.to_nat (decpt - nd)) ++ lit ".0"
       else firstn (Z.to_nat decpt) ds ++ ch "." :: skipn (Z.to_nat decpt) ds)
  end.

(** ** Decoded JSON values *)

(** What [json.loads] returns: [None], [bool], [int], [float], [str], [list]
    and [dict] (its entries in insertion order, keys distinct). *)
Local Set Warnings "-register-all".
Inductive json :=
| JNull
| JBool (b : bool)
| JInt (z : Z)
| JFloat (f : pyfloat)
| JStr (s : pystr)
| JList (l : list json)
| JDict (kv : list (pystr * json)).

Fixpoint dict_lookup (k : pystr) (kv : list (pystr * json)) : option json :=
  match kv with
  | [] => None
  | (k', v) :: r => if pystr_eqb k k' then Some v else dict_lookup k r
  end.

(** Truth value of a decoded value ([if x:], [not x]). *)
Definition truthy (v : json) : bool :=
  match v with
  | JNull => false
  | JBool b => b
  | JInt z => negb (z =? 0)
  | JFloat f => negb (sf_is_zero f)
  | JStr s => negb (match s with [] => true | _ => false end)
  | JList l => negb (match l with [] => true | _ => false end)
  | JDict kv => negb (match kv with [] => true | _ => false end)
  end.

(** [d.get(k, default)]: only a [dict] has [.get]. *)
Definition get (d : json) (k : pystr) (default : json) : res json :=
  match d with
  | JDict kv => match dict_lookup k kv with Some v => Ok v | None => Ok default end
  | _ => Err AttributeError
  end.

(** [d[k]] with a [str] key. *)
Definition getitem (d : json) (k : pystr) : res json :=
  match d with
  | JDict kv => match dict_lookup k kv with Some v => Ok v | None => Err KeyError end
  | _ => Err TypeError
  end.

(** [k in d] with a [str] on the left. *)
Definition contains (k : pystr) (d : json) : res bool :=
  match d with
  | JDict kv => Ok (match dict_lookup k kv with Some _ => true | None => false end)
  | JList l => Ok (existsb (fun x => match x with JStr s => pystr_eqb s k | _ => false end) l)
  | JStr s => Ok (py_contains s k)
  | _ => Err TypeError
  end.

(** [for x in v]: a [list] gives its items, a [dict] its keys, a [str] its
    characters. *)
Definition iter (v : json) : res (list json) :=
  match v with
  | JList l => Ok l
  | JDict kv => Ok (map (fun p => JStr (fst p)) kv)
  | JStr s => Ok (map (fun c => JStr [c]) s)
  | _ => Err TypeError
  end.

(** [v[:n]]; slicing a [dict] raises (TypeError, or KeyError from 3.12 on). *)
Definition slice_to (v : json) (n : nat) : res json :=
  match v with
  | JStr s => Ok (JStr (firstn n s))
  | JList l => Ok (JList (firstn n l))
  | _ => Err TypeError
  end.

(** A decoded value used as a number: [bool] counts as [int]. *)
Definition as_num (v : json) : res pynum :=
  match v with
  | JInt z => Ok (PInt z)
  | JBool b => Ok (PInt (if b then 1 else 0))
  | JFloat f => Ok (PFloat f)
  | _ => Err TypeError
  end.

Definition pystr_concat (sep : pystr) (parts : list pystr) : pystr :=
  match parts with
  | [] => []
  | p :: r => p ++ flat_map (fun q => sep ++ q) r
  end.

Fixpoint map_res {A B} (f : A -> res B) (l : list A) : res (list B) :=
  match l with
  | [] => Ok []
  | x :: r => let* y := f x in let* ys := map_res f r in Ok (y :: ys)
  end.


(** ** [json.loads] (CPython's C scanner, [strict=True]) *)

Module Json.

Definition is_ws (c : N) : bool :=
  (c =? 32)%N || (c =? 9)%N || (c =? 10)%N || (c =? 13)%N.

Fixpoint skip_ws (s : pystr) : pystr :=
  match s with
  | c :: r => if is_ws c then skip_ws r else s
  | [] => []
  end.

Definition is_digit (c : N) : bool := ((48 <=? c) && (c <=? 57))%N.

Fixpoint span_digits (s : pystr) : pystr * pystr :=
  match s with
  | c :: r => if is_digit c then let '(d, r') := span_digits r in (c :: d, r') else ([], s)
  | [] => ([], [])
  end.

Definition digits_value (ds : pystr) : Z :=
  fold_left (fun acc c => acc * 10 + Z.of_N (c - 48)) ds 0.

Definition hex_val (c : N) : option N :=
  if ((48 <=? c) && (c <=? 57))%N then Some (c - 48)%N
  else if ((97 <=? c) && (c <=? 102))%N then Some (c - 87)%N
  else if ((65 <=? c) && (c <=? 70))%N then Some (c - 55)%N
  else None.

(** Four hex digits of a [\uXXXX] escape. *)
Definition hex4 (s : pystr) : option (N * pystr) :=
  match s with
  | a :: b :: c :: d :: r =>
      match hex_val a, hex_val b, hex_val c, hex_val d with
      | Some a, Some b, Some c, Some d => Some (((a * 16 + b) * 16 + c) * 16 + d, r)%N
      | _, _, _, _ => None
      end
  | _ => None
  end.

Definition is_high_surrogate (u : N) : bool := ((55296 <=? u) && (u <=? 56319))%N.
Definition is_low_surrogate (u : N) : bool := ((56320 <=? u) && (u <=? 57343))%N.

Definition simple_escape (e : N) : option N :=
  if (e =? dq)%N then Some (dq)
  else if (e =? 92)%N then Some 92%N
  else if (e =? ch "/")%N then Some (ch "/")
  else if (e =? ch "b")%N then Some 8%N
  else if (e =? ch "f")%N then Some 12%N
  else if (e =? ch "n")%N then Some 10%N
  else if (e =? ch "r")%N then Some 13%N
  else if (e =? ch "t")%N then Some 9%N
  else None.

(** [scanstring]: the body of a string after its opening quote; [acc] holds the
    decoded characters in reverse.  A high surrogate escape followed (with at
    least seven characters left) by a low surrogate escape is joined. *)
Fixpoint scanstring (fuel : nat) (s : pystr) (acc : pystr) : res (pystr * pystr) :=
  match fuel with
  | O => Err JSONDecodeError
  | S f =>
      match s with
      | [] => Err JSONDecodeError (* Unterminated string *)
      | c :: r =>
          if (c =? dq)%N then Ok (rev acc, r)
          else if (c =? 92)%N then
            match r with
            | [] => Err JSONDecodeError
            | e :: r' =>
                if (e =? ch "u")%N then
                  match hex4 r' with
                  | None => Err JSONDecodeError (* Invalid \uXXXX escape *)
                  | Some (u, r'') =>
                      match r'' with
                      | [] => Err JSONDecodeError (* Invalid \uXXXX escape *)
                      | _ =>
                          if is_high_surrogate u && (7 <=? List.length r'')%nat then
                            match r'' with
                            | b :: u' :: rest =>
                                if (b =? 92)%N && (u' =? ch "u")%N then
                                  match hex4 rest with
                                  | None => Err JSONDecodeError
                                  | Some (u2, rest') =>
                                      if is_low_surrogate u2 then
                                        scanstring f rest'
                                          ((65536 + (u - 55296) * 1024 + (u2 - 56320))%N :: acc)
                                      else scanstring f r'' (u :: acc)
                                  end
                                else scanstring f r'' (u :: acc)
                            | _ => scanstring f r'' (u :: acc)
                            end
                          else scanstring f r'' (u :: acc)
                      end
                  end
                else match simple_escape e with
                     | Some d => scanstring f r' (d :: acc)
                     | None => Err JSONDecodeError (* Invalid \escape *)
                     end
            end
          else if (c <=? 31)%N then Err JSONDecodeError (* Invalid control character *)
          else scanstring f r (c :: acc)
      end
  end.

(** [_match_number_unicode]: an optional minus, then [0] or a nonzero digit and
    more digits, an optional fraction ([.] and digits) and an optional exponent
    ([e] or [E], an optional sign, digits), backtracking over incomplete parts;
    an [int] of more than 4300 digits raises [ValueError] (not a decode error). *)
Definition parse_number (s : pystr) : res (json * pystr) :=
  let '(neg, s1) := match s with
                    | c :: r => if (c =? ch "-")%N then (true, r) else (false, s)
                    | [] => (false, s)
                    end in
  let int_part :=
    match s1 with
    | c :: r =>
        if ((ch "1" <=? c) && (c <=? ch "9"))%N then
          let '(d, r') := span_digits r in Some (c :: d, r')
        else if (c =? ch "0")%N then Some ([c], r)
        else None
    | [] => None
    end in
  match int_part with
  | None => Err JSONDecodeError (* Expecting value *)
  | Some (ip, r1) =>
      let '(fp, r2, has_frac) :=
        match r1 with
        | c :: d :: r => if (c =? ch ".")%N && is_digit d then
                           let '(ds, r') := span_digits (d :: r) in (ds, r', true)
                         else ([], r1, false)
        | _ => ([], r1, false)
        end in
      let '(ex, r3, has_exp) :=
        match r2 with
        | c :: r =>
            if (c =? ch "e")%N || (c =? ch "E")%N then
              let '(eneg, r') := match r with
                                 | sg :: r'' => if (sg =? ch "-")%N then (true, r'')
                                                else if (sg =? ch "+")%N then (false, r'')
                                                else (false, r)
                                 | [] => (false, r)
                                 end in
              match span_digits r' with
              | ([], _) => (0, r2, false)
              | (ds, r'') => ((if eneg then - digits_value ds else digits_value ds), r'', true)
              end
            else (0, r2, false)
        | [] => (0, r2, false)
        end in
      if has_frac || has_exp then
        Ok (JFloat (round_decimal neg (digits_value (ip ++ fp))
                      (ex - Z.of_nat (List.length fp))), r3)
      else if (4300 <? List.length ip)%nat then Err ValueError
      else let v := digits_value ip in Ok (JInt (if neg then - v else v), r3)
  end.

(** [d[key] = value] on a dict under construction: a repeated key keeps its
    first position and takes the last value. *)
Fixpoint dict_set (k : pystr) (v : json) (kv : list (pystr * json)) : list (pystr * json) :=
  match kv with
  | [] => [(k, v)]
  | (k', v') :: r => if pystr_eqb k k' then (k', v) :: r else (k', v') :: dict_set k v r
  end.

Definition f_nan : pyfloat := S754_nan.
Definition f_inf (neg : bool) : pyfloat := S754_infinity neg.

(** [scan_once]: one value at the head of [s] (no leading whitespace). *)
Fixpoint parse_value (fuel : nat) (s : pystr) : res (json * pystr) :=
  match fuel with
  | O => Err JSONDecodeError
  | S f =>
      match s with
      | [] => Err JSONDecodeError (* Expecting value *)
      | c :: r =>
          if (c =? dq)%N then
            let* '(str, r') := scanstring (S (List.length r)) r [] in Ok (JStr str, r')
          else if (c =? ch "{")%N then
            match skip_ws r with
            | c' :: r' => if (c' =? ch "}")%N then Ok (JDict [], r')
                          else parse_members f (c' :: r') []
            | [] => parse_members f [] []
            end
          else if (c =? ch "[")%N then
            match skip_ws r with
            | c' :: r' => if (c' =? ch "]")%N then Ok (JList [], r')
                          else parse_items f (c' :: r') []
            | [] => parse_items f [] []
            end
          else if prefixb (lit "null") s then Ok (JNull, skipn 4 s)
          else if prefixb (lit "true") s then Ok (JBool true, skipn 4 s)
          else if prefixb (lit "false") s then Ok (JBool false, skipn 5 s)
          else if prefixb (lit "NaN") s then Ok (JFloat f_nan, skipn 3 s)
          else if prefixb (lit "Infinity") s then Ok (JFloat (f_inf false), skipn 8 s)
          else if prefixb (lit "-Infinity") s then Ok (JFloat (f_inf true), skipn 9 s)
          else parse_number s
      end
  end
(** Object members: [s] is at a key (after [{] or [,] and whitespace). *)
with parse_members (fuel : nat) (s : pystr) (acc : list (pystr * json)) : res (json * pystr) :=
  match fuel with
  | O => Err JSONDecodeError
  | S f =>
      match s with
      | c :: r =>
          if (c =? dq)%N then
            let* '(key, r1) := scanstring (S (List.length r)) r [] in
            match skip_ws r1 with
            | c1 :: r2 =>
                if (c1 =? ch ":")%N then
                  let* '(v, r3) := parse_value f (skip_ws r2) in
                  let acc' := dict_set key v acc in
                  match skip_ws r3 with
                  | c2 :: r4 =>
                      if (c2 =? ch "}")%N then Ok (JDict acc', r4)
                      else if (c2 =? ch ",")%N then parse_members f (skip_ws r4) acc'
                      else Err JSONDecodeError (* Expecting ',' delimiter *)
                  | [] => Err JSONDecodeError
                  end
                else Err JSONDecodeError (* Expecting ':' delimiter *)
            | [] => Err JSONDecodeError
            end
          else Err JSONDecodeError (* Expecting property name enclosed in double quotes *)
      | [] => Err JSONDecodeError
      end
  end
(** Array items: [s] is at an item (after [\[] or [,] and whitespace). *)
with parse_items (fuel : nat) (s : pystr) (acc : list json) : res (json * pystr) :=
  match fuel with
  | O => Err JSONDecodeError
  | S f =>
      let* '(v, r1) := parse_value f s in
      match skip_ws r1 with
      | c :: r2 =>
          if (c =? ch "]")%N then Ok (JList (rev (v :: acc)), r2)
          else if (c =? ch ",")%N then parse_items f (skip_ws r2) (v :: acc)
          else Err JSONDecodeError (* Expecting ',' delimiter *)
      | [] => Err JSONDecodeError
      end
  end.

(** [json.loads(s)]: a leading BOM is refused; whitespace around the value is
    skipped and anything after it is "Extra data".  The fuel (one unit per
    character) bounds the nesting depth and is never exhausted; CPython's
    recursion limit on very deep nesting is not modelled. *)
Definition loads (s : pystr) : res json :=
  if prefixb [65279%N] s then Err JSONDecodeError
  else
    let* '(v, rest) := parse_value (S (List.length s)) (skip_ws s) in
    match skip_ws rest with
    | [] => Ok v
    | _ => Err JSONDecodeError (* Extra data *)
    end.

End Json.


(** ** [stream_json_array] *)

Module Stream.

(** The decoded text of the input file, after universal-newline translation.
    [readline] takes the first line with its ['\n']. *)
Fixpoint readline (s : pystr) : pystr * pystr :=
  match s with
  | [] => ([], [])
  | c :: r => if (c =? 10)%N then ([c], r) else let '(l, r') := readline r in (c :: l, r')
  end.

(** What the generator does in order: yield a decoded value, or print a
    warning to [sys.stderr]. *)
Inductive event :=
| Yield (j : json)
| Warn.

(** The local variables of the generator between two characters. *)
Record state := mkState {
  buffer : pystr;
  brace_depth : Z;
  in_string : bool;
  escape_next : bool;
  count : Z
}.

Definition init : state := mkState [] 0 false false 0.

(** [if limit and count >= limit]: [limit] is [None] when not given. *)
Definition limit_reached (limit : option Z) (count : Z) : bool :=
  match limit with
  | Some l => negb (l =? 0) && (l <=? count)
  | None => false
  end.

Definition rbracket : pystr := [93%N].

(** One character of the inner loop, up to and including the completion test:
    the next state and, when a segment completes, [obj_str]
    ([buffer.strip().rstrip(',')]); the buffer is then reset. *)
Definition step (st : state) (c : N) : state * option pystr :=
  if escape_next st then
    (mkState (buffer st ++ [c]) (brace_depth st) (in_string st) false (count st), None)
  else if (c =? bs)%N && in_string st then
    (mkState (buffer st ++ [c]) (brace_depth st) (in_string st) true (count st), None)
  else
    let ins := if (c =? dq)%N then negb (in_string st) else in_string st in
    let depth := if ins then brace_depth st
                 else if (c =? ch "{")%N then brace_depth st + 1
                 else if (c =? ch "}")%N then brace_depth st - 1
                 else brace_depth st in
    let buf := buffer st ++ [c] in
    if (depth =? 0) && negb (is_nil (py_strip buf)) && negb ins then
      (mkState [] depth ins false (count st), Some (rstrip_comma (py_strip buf)))
    else (mkState buf depth ins false (count st), None).

Definition with_count (st : state) (n : Z) : state :=
  mkState (buffer st) (brace_depth st) (in_string st) (escape_next st) n.

(** The loop over the characters after the first line.  The result lists the
    events and tells how the generator ended: [None] when it returned (input
    exhausted or limit reached), [Some e] when [json.loads] raised something
    other than [JSONDecodeError], which the [except] does not catch. *)
Fixpoint scan (limit : option Z) (st : state) (s : pystr) : list event * option exn :=
  match s with
  | [] => ([], None)
  | c :: r =>
      match step st c with
      | (st', None) => scan limit st' r
      | (st', Some obj_str) =>
          if negb (is_nil obj_str) && negb (pystr_eqb obj_str rbracket) then
            match Json.loads obj_str with
            | Ok obj =>
                let n := count st' + 1 in
                if limit_reached limit n then ([Yield obj], None)
                else let '(evs, e) := scan limit (with_count st' n) r in (Yield obj :: evs, e)
            | Err JSONDecodeError =>
                let '(evs, e) := scan limit st' r in (Warn :: evs, e)
            | Err e => ([], Some e)
            end
          else scan limit st' r
      end
  end.

(** [stream_json_array(f, limit)]: the first line must start with [\[] once
    stripped, and is otherwise discarded. *)
Definition stream_json_array (text : pystr) (limit : option Z) : list event * option exn :=
  let '(line, rest) := readline text in
  if startswith (py_strip line) [91%N] then scan limit init rest
  else ([], Some ValueError).

Definition yields (evs : list event) : list json :=
  flat_map (fun e => match e with Yield j => [j] | Warn => [] end) evs.

Definition warnings (evs : list event) : nat :=
  List.length (filter (fun e => match e with Warn => true | _ => false end) evs).

End Stream.


(** ** The triple generators *)

Definition NAMESPACE : pystr := lit "http://knowledge.graph/ontology/narrative#".
Definition BASE_URI : pystr := lit "http://knowledge.graph/data/".

(** [f"<{BASE_URI}{path}>"] and [f"<{NAMESPACE}{name}>"]. *)
Definition data_uri (path : pystr) : pystr := lit "<" ++ BASE_URI ++ path ++ lit ">".
Definition ns_uri (name : pystr) : pystr := lit "<" ++ NAMESPACE ++ name ++ lit ">".
Definition ns (name : string) : pystr := ns_uri (lit name).
Definition rdfs_label : pystr := lit "<http://www.w3.org/2000/01/rdf-schema#label>".

(** [f'{s} {p} {o} .'] *)
Definition triple (s p o : pystr) : pystr := s ++ [32%N] ++ p ++ [32%N] ++ o ++ lit " .".
(** [f'{s} a <{NAMESPACE}{cls}> .'] *)
Definition type_triple (s : pystr) (cls : string) : pystr := triple s (lit "a") (ns cls).
(** ["{x}"] and ["{x}"^^<http://www.w3.org/2001/XMLSchema#{ty}>] *)
Definition strlit (x : pystr) : pystr := dq :: x ++ [dq].
Definition typed (x : pystr) (ty : string) : pystr :=
  strlit x ++ lit "^^<http://www.w3.org/2001/XMLSchema#" ++ lit ty ++ lit ">".

(** [s.replace(c, r)] for a one-character [c]. *)
Definition replace1 (c : N) (r : pystr) (s : pystr) : pystr :=
  flat_map (fun x => if (x =? c)%N then r else [x]) s.

Definition hex_lower (d : N) : N := if (d <? 10)%N then (48 + d)%N else (87 + d)%N.

(** The last [n] hex digits of [v], most significant first. *)
Fixpoint hex_digits (n : nat) (v : N) : pystr :=
  match n with
  | O => []
  | S k => hex_digits k (v / 16) ++ [hex_lower (v mod 16)]
  end.

Section Python.

(** [str.lower] and [str.isprintable], which read the Unicode database. *)
Variable py_lower : pystr -> pystr.
Variable py_isprintable : N -> bool.

(** One character of [repr(s)] (CPython's [unicode_repr]). *)
Definition repr_char (quote c : N) : pystr :=
  if (c =? quote)%N || (c =? bs)%N then [bs; c]
  else if (c =? 9)%N then [bs; ch "t"]
  else if (c =? 10)%N then [bs; ch "n"]
  else if (c =? 13)%N then [bs; ch "r"]
  else if (c <? 32)%N || (c =? 127)%N then bs :: ch "x" :: hex_digits 2 c
  else if (c <? 127)%N then [c]
  else if py_isprintable c then [c]
  else if (c <=? 255)%N then bs :: ch "x" :: hex_digits 2 c
  else if (c <=? 65535)%N then bs :: ch "u" :: hex_digits 4 c
  else bs :: ch "U" :: hex_digits 8 c.

(** [repr(s)]: single quotes unless [s] has a single quote and no double one. *)
Definition repr_str (s : pystr) : pystr :=
  let quote := if existsb (fun c => (c =? 39)%N) s && negb (existsb (fun c => (c =? dq)%N) s)
               then dq else 39%N in
  quote :: flat_map (repr_char quote) s ++ [quote].

(** [repr(v)] of a decoded value. *)
Fixpoint py_repr (v : json) : res pystr :=
  match v with
  | JNull => Ok (lit "None")
  | JBool b => Ok (lit (if b then "True" else "False"))
  | JInt z => int_str z
  | JFloat f => Ok (float_repr f)
  | JStr s => Ok (repr_str s)
  | JList l =>
      let* parts := (fix go (l : list json) : res (list pystr) :=
                       match l with
                       | [] => Ok []
                       | x :: r => let* a := py_repr x in let* b := go r in Ok (a :: b)
                       end) l in
      Ok (lit "[" ++ pystr_concat (lit ", ") parts ++ lit "]")
  | JDict kv =>
      let* parts := (fix go (kv : list (pystr * json)) : res (list pystr) :=
                       match kv with
                       | [] => Ok []
                       | (k, x) :: r =>
                           let* a := py_repr x in let* b := go r in
                           Ok ((repr_str k ++ lit ": " ++ a) :: b)
                       end) kv in
      Ok (lit "{" ++ pystr_concat (lit ", ") parts ++ lit "}")
  end.

(** [str(v)], which is also what an f-string field [{v}] gives. *)
Definition py_str (v : json) : res pystr :=
  match v with
  | JStr s => Ok s
  | _ => py_repr v
  end.

Definition lower_v (v : json) : res pystr :=
  match v with
  | JStr s => Ok (py_lower s)
  | _ => Err AttributeError
  end.

Definition escape_sparql_string (v : json) : res pystr :=
  match v with
  | JNull => Ok []
  | _ =>
      let* s := py_str v in
      Ok (replace1 13 [bs; ch "r"] (replace1 10 [bs; ch "n"]
            (replace1 dq [bs; dq] (replace1 bs [bs; bs] s))))
  end.

(** [safe_uri(s)] on any value: [str(s)] first. *)
Definition safe_uri_v (v : json) : res pystr :=
  let* s := py_str v in safe_uri s.

Definition generate_person_triples (creator_id creator_name : json) : res (list pystr) :=
  let* cid := py_str creator_id in
  let person_uri := data_uri (lit "person/" ++ cid) in
  let* name := escape_sparql_string creator_name in
  Ok [type_triple person_uri "Person";
      triple person_uri rdfs_label (strlit name);
      triple person_uri (ns "knownAs") (strlit name)].

Definition generate_org_triples (org_id org_name : json) (org_type : pystr) : res (list pystr) :=
  let* oid := py_str org_id in
  let org_uri := data_uri (lit "org/" ++ oid) in
  let* name := escape_sparql_string org_name in
  Ok [type_triple org_uri "Org";
      triple org_uri rdfs_label (strlit name);
      triple org_uri (ns "legalName") (strlit name);
      triple org_uri (ns "orgType") (strlit org_type)].

Definition any_in (text : pystr) (words : list string) : bool :=
  existsb (fun w => py_contains text (lit w)) words.

Definition infer_tone (series_data : json) : res pystr :=
  let* n := get series_data (lit "name") (JStr []) in
  let* name := lower_v n in
  let* d := get series_data (lit "desc") (JStr []) in
  let* desc := lower_v d in
  let* gs := get series_data (lit "genres") (JList []) in
  let* gl := iter gs in
  let* genres := map_res (fun g => let* x := get g (lit "name") (JStr []) in lower_v x) gl in
  if any_in (name ++ desc) (["dark"; "noir"; "grim"; "gritty"; "shadow"])%string then Ok (lit "Dark")
  else if any_in (name ++ desc) (["funny"; "comedy"; "humor"; "laugh"; "silly"])%string then Ok (lit "Comedic")
  else if any_in (name ++ desc) (["adventure"; "fun"; "family"; "friends"])%string then Ok (lit "Wholesome")
  else if existsb (pystr_eqb (lit "horror")) genres
          || any_in (name ++ desc) (["horror"; "terror"; "fear"])%string then Ok (lit "Dark")
  else Ok (lit "Dramatic").

(** [if d.get(k): ... d[k] ...] *)
Definition when_truthy (d : json) (k : string) (f : json -> res (list pystr)) : res (list pystr) :=
  let* v := get d (lit k) JNull in
  if truthy v then let* x := getitem d (lit k) in f x else Ok [].

(** [if k in d and d[k]: ... d[k] ...] *)
Definition when_in (d : json) (k : string) (f : json -> res (list pystr)) : res (list pystr) :=
  let* b := contains (lit k) d in
  if b then let* x := getitem d (lit k) in if truthy x then f x else Ok [] else Ok [].

Definition fl (z : Z) : pynum := PFloat (f_of_Z z).

(** [f"{x:.Nf}"] of a number. *)
Definition fmt_fixed (prec : nat) (n : pynum) : res pystr :=
  let* f := as_float n in Ok (format_fixed prec f).

Definition genre_to_theme : list (string * string) :=
  [("superhero", "Heroism"); ("fantasy", "Magic"); ("sci-fi", "Technology");
   ("horror", "Survival"); ("crime", "Justice"); ("romance", "Love")]%string.

(** The four ranking scores, in the order the source computes them. *)
Definition series_scores (series_data : json) : res (pynum * pynum * pyfloat * pynum) :=
  let* issue_count := get series_data (lit "count_of_issues") (JInt 1) in
  let* year_began := get series_data (lit "year_began") (JInt 2000) in
  let* ic := as_num issue_count in
  let* yb := as_num year_began in
  let* diff := num_sub (PInt 2025) yb in
  let years_active := py_max2 (PInt 1) diff in
  let* a := num_div ic (fl 500) in
  let* b := num_div years_active (fl 20) in
  let* ab := num_mul a b in
  let popularity := py_min2 (fl 1) ab in
  let* diff' := num_sub (PInt 2025) yb in
  let* q := num_div diff' (fl 50) in
  let* r := num_sub (fl 1) q in
  let recency_factor := py_max2 (fl 0) r in
  let* c := num_div ic (fl 100) in
  let* rc := num_mul recency_factor c in
  let trending := py_min2 (fl 1) rc in
  let* ye := get series_data (lit "year_ended") JNull in
  let completion_rate := if truthy ye then round_decimal false 85 (-2)
                         else round_decimal false 7 (-1) in
  let* sum := num_add popularity trending in
  let* half := num_div sum (fl 2) in
  let engagement := py_min2 (fl 1) half in
  Ok (popularity, trending, completion_rate, engagement).

Definition int_field (work_uri : pystr) (d : json) (k pred : string) : res (list pystr) :=
  when_truthy d k (fun v => let* x := py_str v in Ok [triple work_uri (ns pred) (typed x "int")]).

Definition generate_series_triples (series_id series_data : json) : res (list pystr) :=
  let* sid := py_str series_id in
  let work_uri := data_uri (lit "work/series_" ++ sid) in
  let* name := getitem series_data (lit "name") in
  let* ename := escape_sparql_string name in
  let t_head := [type_triple work_uri "StoryWork";
                 triple work_uri rdfs_label (strlit ename);
                 triple work_uri (ns "seriesName") (strlit ename)] in
  let* t_sort := when_truthy series_data "sort_name" (fun v =>
        let* e := escape_sparql_string v in Ok [triple work_uri (ns "sortName") (strlit e)]) in
  let* t_vol := int_field work_uri series_data "volume" "volume" in
  let* t_yb := int_field work_uri series_data "year_began" "yearBegan" in
  let* t_ye := int_field work_uri series_data "year_ended" "yearEnded" in
  let* t_ic := int_field work_uri series_data "count_of_issues" "issueCount" in
  let* t_st := when_in series_data "series_type" (fun st =>
        let* n := getitem st (lit "name") in let* e := escape_sparql_string n in
        Ok [triple work_uri (ns "seriesType") (strlit e)]) in
  let* has_genres := contains (lit "genres") series_data in
  let* t_genres :=
    if has_genres then
      let* gs := getitem series_data (lit "genres") in
      let* gl := iter gs in
      let* parts := map_res (fun genre =>
          let* genre_name := getitem genre (lit "name") in
          let* su := safe_uri_v genre_name in
          let genre_uri := data_uri (lit "genre/" ++ su) in
          let* e := escape_sparql_string genre_name in
          Ok [type_triple genre_uri "Genre";
              triple genre_uri rdfs_label (strlit e);
              triple work_uri (ns "hasGenre") genre_uri;
              triple work_uri (ns "genre") (strlit e)]) gl in
      Ok (List.concat parts)
    else Ok [] in
  let* t_pub := when_truthy series_data "publisher" (fun pub =>
        let* pid := getitem pub (lit "id") in let* x := py_str pid in
        Ok [triple work_uri (ns "publishedBy") (data_uri (lit "org/" ++ x))]) in
  let* t_desc := when_truthy series_data "desc" (fun d =>
        let* d' := slice_to d 1000 in let* e := escape_sparql_string d' in
        Ok [triple work_uri (ns "synopsis") (strlit e)]) in
  let* '(popularity, trending, completion_rate, engagement) := series_scores series_data in
  let* pop_s := fmt_fixed 3 popularity in
  let* tr_s := fmt_fixed 3 trending in
  let cr_s := format_fixed 2 completion_rate in
  let* en_s := fmt_fixed 3 engagement in
  let t_scores := [triple work_uri (ns "popularityScore") (typed pop_s "float");
                   triple work_uri (ns "trendingScore") (typed tr_s "float");
                   triple work_uri (ns "completionRate") (typed cr_s "float");
                   triple work_uri (ns "engagementScore") (typed en_s "float")] in
  let* tone_value := infer_tone series_data in
  let* tsu := safe_uri tone_value in
  let tone_uri := data_uri (lit "tone/" ++ tsu) in
  let t_tone := [type_triple tone_uri "Tone";
                 triple tone_uri rdfs_label (strlit tone_value);
                 triple work_uri (ns "hasTone") tone_uri] in
  let* gs2 := get series_data (lit "genres") (JList []) in
  let* gl2 := iter gs2 in
  let* themes := map_res (fun genre =>
      let* gn := get genre (lit "name") (JStr []) in
      let* genre_lower := lower_v gn in
      let* per_key := map_res (fun kt =>
          if py_contains genre_lower (lit (fst kt)) then
            let* su := safe_uri (lit (snd kt)) in
            let theme_uri := data_uri (lit "theme/" ++ su) in
            Ok [type_triple theme_uri "Theme";
                triple theme_uri rdfs_label (strlit (lit (snd kt)));
                triple work_uri (ns "hasTheme") theme_uri]
          else Ok []) genre_to_theme in
      Ok (List.concat per_key)) gl2 in
  Ok (t_head ++ t_sort ++ t_vol ++ t_yb ++ t_ye ++ t_ic ++ t_st ++ t_genres ++ t_pub
      ++ t_desc ++ t_scores ++ t_tone ++ List.concat themes).

Definition infer_format_class (issue_data : json) : res pystr :=
  let* sr := get issue_data (lit "series") (JDict []) in
  let* st := get sr (lit "series_type") (JDict []) in
  let* nm := get st (lit "name") (JStr []) in
  let* series_type := lower_v nm in
  let* pc := get issue_data (lit "page_count") JNull in
  let page_count := if truthy pc then pc else JInt 0 in
  if py_contains series_type (lit "trade paperback") || py_contains series_type (lit "tpb") then
    Ok (lit "TradePaperback")
  else if py_contains series_type (lit "hardcover") || py_contains series_type (lit "hc") then
    Ok (lit "Hardcover")
  else if py_contains series_type (lit "digital") then Ok (lit "DigitalChapter")
  else if py_contains series_type (lit "graphic novel") then Ok (lit "GraphicNovel")
  else if truthy page_count then
    let* n := as_num page_count in
    if num_gt n (PInt 100) then Ok (lit "CollectedEdition") else Ok (lit "SingleIssue")
  else Ok (lit "SingleIssue").

Definition escaped_field (uri : pystr) (d : json) (k pred : string) : res (list pystr) :=
  when_truthy d k (fun v => let* e := escape_sparql_string v in Ok [triple uri (ns pred) (strlit e)]).

Definition raw_typed_field (uri : pystr) (d : json) (k pred ty : string) : res (list pystr) :=
  when_truthy d k (fun v => let* x := py_str v in Ok [triple uri (ns pred) (typed x ty)]).

Definition generate_issue_triples (issue_data : json) : res (list pystr) :=
  let* issue_id := getitem issue_data (lit "id") in
  let* iid := py_str issue_id in
  let expr_uri := data_uri (lit "expression/issue_" ++ iid) in
  let t_head := [type_triple expr_uri "StoryExpression"] in
  let* t_name := when_truthy issue_data "issue_name" (fun v =>
        let* e := escape_sparql_string v in
        Ok [triple expr_uri rdfs_label (strlit e); triple expr_uri (ns "issueTitle") (strlit e)]) in
  let* t_num := escaped_field expr_uri issue_data "number" "issueNumber" in
  let* t_cover := raw_typed_field expr_uri issue_data "cover_date" "coverDate" "date" in
  let* t_store := raw_typed_field expr_uri issue_data "store_date" "storeDate" "date" in
  let* t_price := raw_typed_field expr_uri issue_data "price" "msrp" "decimal" in
  let* t_pages := raw_typed_field expr_uri issue_data "page_count" "pageCount" "int" in
  let* t_desc := when_truthy issue_data "desc" (fun d =>
        let* d' := slice_to d 1000 in let* e := escape_sparql_string d' in
        Ok [triple expr_uri (ns "description") (strlit e)]) in
  let* t_sku := escaped_field expr_uri issue_data "sku" "sku" in
  let* t_upc := escaped_field expr_uri issue_data "upc" "upc" in
  let* t_image := when_truthy issue_data "image" (fun v =>
        let* e := escape_sparql_string v in
        Ok [triple expr_uri (ns "coverImage") (typed e "anyURI")]) in
  let* t_isbn := escaped_field expr_uri issue_data "isbn" "isbn" in
  let* t_series := when_in issue_data "series" (fun sr =>
        let* sid := getitem sr (lit "id") in let* x := py_str sid in
        let work_uri := data_uri (lit "work/series_" ++ x) in
        Ok [triple expr_uri (ns "expressionOf") work_uri;
            triple work_uri (ns "hasExpression") expr_uri]) in
  let* t_pub := when_in issue_data "publisher" (fun pub =>
        let* pid := getitem pub (lit "id") in let* x := py_str pid in
        Ok [triple expr_uri (ns "publishedBy") (data_uri (lit "org/" ++ x))]) in
  let manif_uri := data_uri (lit "manifestation/issue_" ++ iid) in
  let t_manif := [type_triple manif_uri "Manifestation";
                  triple expr_uri (ns "hasManifestation") manif_uri;
                  triple manif_uri (ns "manifestationOf") expr_uri] in
  let* format_class := infer_format_class issue_data in
  let* fsu := safe_uri format_class in
  let format_uri := data_uri (lit "format/" ++ fsu) in
  let t_format := [type_triple format_uri "FormatClass";
                   triple format_uri rdfs_label (strlit format_class);
                   triple manif_uri (ns "hasFormatClass") format_uri] in
  Ok (t_head ++ t_name ++ t_num ++ t_cover ++ t_store ++ t_price ++ t_pages ++ t_desc
      ++ t_sku ++ t_upc ++ t_image ++ t_isbn ++ t_series ++ t_pub ++ t_manif ++ t_format).

Definition generate_credit_triples (issue_id credit : json) (credit_index : Z) : res (list pystr) :=
  let* iid := py_str issue_id in
  let* cid := getitem credit (lit "id") in
  let* cid_s := py_str cid in
  let* idx := int_str credit_index in
  let credit_uri := data_uri (lit "credit/" ++ iid ++ lit "_" ++ cid_s ++ lit "_" ++ idx) in
  let person_uri := data_uri (lit "person/" ++ cid_s) in
  let expr_uri := data_uri (lit "expression/issue_" ++ iid) in
  let* creator := getitem credit (lit "creator") in
  let* e := escape_sparql_string creator in
  let t_head := [type_triple credit_uri "CreditRelationship";
                 triple person_uri (ns "hasCreditRelationship") credit_uri;
                 triple credit_uri (ns "creditsExpression") expr_uri;
                 triple credit_uri (ns "creditedName") (strlit e);
                 triple credit_uri (ns "billingOrder") (typed idx "int")] in
  let* roles := get credit (lit "role") (JList []) in
  let* rl := iter roles in
  let* t_roles := map_res (fun role_data =>
      let* role_name := getitem role_data (lit "name") in
      let* su := safe_uri_v role_name in
      let role_uri := ns_uri su in
      let* en := escape_sparql_string role_name in
      Ok [triple credit_uri (ns "creditRole") role_uri;
          triple credit_uri (data_uri (lit "roleName")) (strlit en)]) rl in
  Ok (t_head ++ List.concat t_roles).

Definition character_themes : list (list string * string) :=
  [(["spider"; "web"; "arachnid"], "Spider-Powers");
   (["dark"; "shadow"; "night"], "Dark-Vigilante");
   (["super"; "man"; "woman"; "girl"; "boy"], "Superhero")]%string.

Definition generate_character_triples (char_data series_id issue_id : json) : res (list pystr) :=
  let* cid := get char_data (lit "id") (JStr []) in
  let* char_id := if truthy cid then py_str cid
                  else let* n := getitem char_data (lit "name") in safe_uri_v n in
  let char_uri := data_uri (lit "character/" ++ char_id) in
  let* name := getitem char_data (lit "name") in
  let* ename := escape_sparql_string name in
  let t_head := [type_triple char_uri "Character";
                 triple char_uri rdfs_label (strlit ename);
                 triple char_uri (ns "characterName") (strlit ename)] in
  let* t_real := escaped_field char_uri char_data "real_name" "realName" in
  let* t_alias := when_truthy char_data "aliases" (fun aliases =>
        match aliases with
        | JStr _ => let* e := escape_sparql_string aliases in
                    Ok [triple char_uri (ns "aliases") (strlit e)]
        | JList l => map_res (fun alias =>
                       let* e := escape_sparql_string alias in
                       Ok (triple char_uri (ns "aliases") (strlit e))) l
        | _ => Ok []
        end) in
  let* t_origin := when_truthy char_data "origin" (fun v =>
        let* v' := slice_to v 500 in let* e := escape_sparql_string v' in
        Ok [triple char_uri (ns "origin") (strlit e)]) in
  let* t_powers := when_truthy char_data "powers" (fun v =>
        let* v' := slice_to v 1000 in let* e := escape_sparql_string v' in
        Ok [triple char_uri (ns "powers") (strlit e)]) in
  let* t_bio := when_truthy char_data "desc" (fun v =>
        let* v' := slice_to v 1000 in let* e := escape_sparql_string v' in
        Ok [triple char_uri (ns "bio") (strlit e)]) in
  let* t_first :=
    if truthy issue_id then
      let* fa := get char_data (lit "first_appeared_in_issue") JNull in
      if truthy fa then
        let* fai := getitem char_data (lit "first_appeared_in_issue") in
        let* fid := get fai (lit "id") JNull in
        let* a := py_str fid in
        let* b := py_str issue_id in
        if pystr_eqb a b then
          let expr_uri := data_uri (lit "expression/issue_" ++ b) in
          Ok [triple char_uri (ns "firstAppearanceIn") expr_uri;
              triple expr_uri (ns "firstAppearance") char_uri]
        else Ok []
      else Ok []
    else Ok [] in
  let* t_franchise :=
    if truthy series_id then
      let* x := py_str series_id in
      Ok [triple char_uri (ns "belongsToFranchise") (data_uri (lit "work/series_" ++ x))]
    else Ok [] in
  let* char_name_lower := lower_v name in
  let themes := map snd (filter (fun wt => any_in char_name_lower (fst wt)) character_themes) in
  let* t_tags := map_res (fun theme_name =>
      let* su := safe_uri (lit theme_name) in
      let tag_uri := data_uri (lit "tag/" ++ su) in
      Ok [type_triple tag_uri "Tag"; triple tag_uri rdfs_label (strlit (lit theme_name))]) themes in
  Ok (t_head ++ t_real ++ t_alias ++ t_origin ++ t_powers ++ t_bio ++ t_first ++ t_franchise
      ++ List.concat t_tags).

Definition generate_group_triples (team_data : json) : res (list pystr) :=
  match team_data with
  | JDict _ =>
      let* n := getitem team_data (lit "name") in
      let* su := safe_uri_v n in
      let* team_id := get team_data (lit "id") (JStr su) in
      let* tid := py_str team_id in
      let team_uri := data_uri (lit "group/" ++ tid) in
      let* e := escape_sparql_string n in
      let t_head := [type_triple team_uri "Group";
                     triple team_uri rdfs_label (strlit e);
                     triple team_uri (ns "groupName") (strlit e);
                     triple team_uri (ns "groupType") (strlit (lit "Hero Team"))] in
      let* t_desc := when_truthy team_data "desc" (fun d =>
            let* d' := slice_to d 1000 in let* e := escape_sparql_string d' in
            Ok [triple team_uri (ns "purpose") (strlit e)]) in
      Ok (t_head ++ t_desc)
  | _ => Err AttributeError (* [team_data.get] *)
  end.

Definition generate_universe_triples (universe_data : json) : res (list pystr) :=
  let* n0 := get universe_data (lit "name") (JStr []) in
  let* su := safe_uri_v n0 in
  let* univ_id := get universe_data (lit "id") (JStr su) in
  let* nm := get universe_data (lit "name") JNull in
  if negb (truthy univ_id) || negb (truthy nm) then Ok []
  else
    let* uid := py_str univ_id in
    let univ_uri := data_uri (lit "universe/" ++ uid) in
    let* name := getitem universe_data (lit "name") in
    let* e := escape_sparql_string name in
    let t_head := [type_triple univ_uri "Universe";
                   triple univ_uri rdfs_label (strlit e);
                   triple univ_uri (ns "universeName") (strlit e)] in
    let* low := lower_v name in
    let t_desig := if py_contains low (lit "earth") || py_contains low (lit "universe")
                   then [triple univ_uri (ns "designation") (strlit e)] else [] in
    let* t_desc := when_truthy universe_data "desc" (fun d =>
          let* d' := slice_to d 1000 in let* e := escape_sparql_string d' in
          Ok [triple univ_uri (ns "universeDescription") (strlit e)]) in
    Ok (t_head ++ t_desig ++ t_desc).

Fixpoint credits_triples (issue_id : json) (idx : Z) (credits : list json) : res (list pystr) :=
  match credits with
  | [] => Ok []
  | credit :: r =>
      let* cid := getitem credit (lit "id") in
      let* creator := getitem credit (lit "creator") in
      let* tp := generate_person_triples cid creator in
      let* tc := generate_credit_triples issue_id credit idx in
      let* rest := credits_triples issue_id (idx + 1) r in
      Ok (tp ++ tc ++ rest)
  end.

(** The lines [process_issue] yields: all triples are computed before the
    first [yield], so an exception leaves nothing yielded. *)
Definition process_issue (issue : json) : res (list pystr) :=
  let* issue_id := getitem issue (lit "id") in
  let* t_pub := when_in issue "publisher" (fun pub =>
        let* pid := getitem pub (lit "id") in let* pn := getitem pub (lit "name") in
        generate_org_triples pid pn (lit "Publisher")) in
  let* t_imp := when_in issue "imprint" (fun imp =>
        let* iid := getitem imp (lit "id") in let* iname := getitem imp (lit "name") in
        generate_org_triples iid iname (lit "Imprint")) in
  let* t_series := when_in issue "series" (fun sr =>
        let* sid := getitem sr (lit "id") in generate_series_triples sid sr) in
  let* t_issue := generate_issue_triples issue in
  let* cs := get issue (lit "credits") (JList []) in
  let* cl := iter cs in
  let* t_credits := credits_triples issue_id 0 cl in
  let* chs := get issue (lit "characters") (JList []) in
  let* chl := iter chs in
  let* t_chars := map_res (fun char =>
      let* has_series := contains (lit "series") issue in
      let* series_id :=
        if has_series then
          let* sr := getitem issue (lit "series") in
          if truthy sr then getitem sr (lit "id") else Ok JNull
        else Ok JNull in
      generate_character_triples char series_id issue_id) chl in
  let* ts := get issue (lit "teams") (JList []) in
  let* tl := iter ts in
  let* t_teams := map_res generate_group_triples tl in
  let* us := get issue (lit "universes") (JList []) in
  let* ul := iter us in
  let* t_univs := map_res generate_universe_triples ul in
  let all_triples := t_pub ++ t_imp ++ t_series ++ t_issue ++ t_credits ++ List.concat t_chars
                     ++ List.concat t_teams ++ List.concat t_univs in
  match all_triples with
  | [] => Ok []
  | _ => Ok ((lit "INSERT DATA {" ++ [10%N])
             :: map (fun t => lit "  " ++ t ++ [10%N]) all_triples
             ++ [lit "} ;" ++ [10%N; 10%N]])
  end.

(** What [main] prints to [sys.stderr]. *)
Inductive diag :=
| DWarn                 (* "Warning: Failed to parse object: ..." *)
| DProgress (n : Z)     (* "Processed {n} issues..." *)
| DTotal (n : Z).       (* "Total issues processed: {n}" *)

(** The [for issue in stream_json_array(...)] loop of [main] over the
    generator's events; returns the collected lines, [issue_count], the
    diagnostics and the exception that left the loop, if any. *)
Fixpoint main_loop (skip skipped issue_count : Z) (evs : list Stream.event)
    (buf : list pystr) (err : list diag) : list pystr * Z * list diag * option exn :=
  match evs with
  | [] => (buf, issue_count, err, None)
  | Stream.Warn :: r => main_loop skip skipped issue_count r buf (err ++ [DWarn])
  | Stream.Yield issue :: r =>
      if skipped <? skip then main_loop skip (skipped + 1) issue_count r buf err
      else
        let n := issue_count + 1 in
        match process_issue issue with
        | Err e => (buf, n, err, Some e)
        | Ok lines =>
            let err' := if n mod 100 =? 0 then err ++ [DProgress n] else err in
            main_loop skip skipped n r (buf ++ lines) err'
        end
  end.

Definition header (input_file : pystr) : pystr :=
  lit "# SPARQL INSERT statements generated from " ++ input_file ++ [10%N]
  ++ lit "# Namespace: " ++ NAMESPACE ++ [10%N]
  ++ lit "# Base URI: " ++ BASE_URI ++ [10%N; 10%N].

(** [''.join(buffer).rstrip()], one trailing [;] removed, then a newline. *)
Definition final_text (buf : list pystr) : pystr :=
  match buf with
  | [] => []
  | _ =>
      let t := py_rstrip (List.concat buf) in
      let t' := if endswith t [ch ";"] then removelast t else t in
      t' ++ [10%N]
  end.

Record run := mkRun {
  output : pystr;          (* the text written to the output file or stdout *)
  diagnostics : list diag; (* what went to stderr, in order *)
  raised : option exn      (* the exception [main] ends with, if any *)
}.

(** [main()] with [args.input_file], the decoded text of that file,
    [args.limit] and [args.skip]. *)
Definition main (input_file text : pystr) (limit : option Z) (skip : Z) : run :=
  let '(evs, scan_exn) := Stream.stream_json_array text limit in
  let '(buf, issue_count, err, loop_exn) := main_loop skip 0 0 evs [] [] in
  match loop_exn with
  | Some e => mkRun (header input_file) err (Some e)
  | None =>
      match scan_exn with
      | Some e => mkRun (header input_file) err (Some e)
      | None => mkRun (header input_file ++ final_text buf) (err ++ [DTotal issue_count]) None
      end
  end.

(** The number of [INSERT DATA] blocks in a text. *)
Fixpoint count_occ_str (p s : pystr) (fuel : nat) : nat :=
  match fuel, s with
  | O, _ | _, [] => 0
  | S f, _ :: r => (if prefixb p s then 1 else 0) + count_occ_str p r f
  end.

Definition blocks (out : pystr) : nat :=
  count_occ_str (lit "INSERT DATA {") out (List.length out).

End Python.


(** ** ASCII instances of the Unicode-database functions

    Exact on ASCII text, which is all the concrete inputs below use. *)
Definition ascii_lower (s : pystr) : pystr :=
  map (fun c => if ((65 <=? c) && (c <=? 90))%N then (c + 32)%N else c) s.

Definition ascii_isprintable (c : N) : bool := ((32 <=? c) && (c <? 127))%N.


(** ** Spec-side reading of the tone heuristic

    The keyword sets tested in priority order, first match wins, default
    [Dramatic]; inputs are the lower-cased name+description and genre names. *)
Definition spec_tone_rules : list ((pystr -> list pystr -> bool) * pystr) :=
  [(fun text _ => any_in text ["dark"; "noir"; "grim"; "gritty"; "shadow"]%string, lit "Dark");
   (fun text _ => any_in text ["funny"; "comedy"; "humor"; "laugh"; "silly"]%string, lit "Comedic");
   (fun text _ => any_in text ["adventure"; "fun"; "family"; "friends"]%string, lit "Wholesome");
   (fun text genres => existsb (pystr_eqb (lit "horror")) genres
                       || any_in text ["horror"; "terror"; "fear"]%string, lit "Dark")].

Fixpoint first_rule (rules : list ((pystr -> list pystr -> bool) * pystr))
    (text : pystr) (genres : list pystr) (default : pystr) : pystr :=
  match rules with
  | [] => default
  | (p, t) :: r => if p text genres then t else first_rule r text genres default
  end.

Definition as_str (v : json) : res pystr :=
  match v with JStr s => Ok s | _ => Err AttributeError end.

(** The raw (not yet lower-cased) name, description and genre names the tone
    is read from, with the errors of reading them. *)
Definition tone_inputs (series_data : json) : res (pystr * pystr * list pystr) :=
  let* n := get series_data (lit "name") (JStr []) in
  let* name := as_str n in
  let* d := get series_data (lit "desc") (JStr []) in
  let* desc := as_str d in
  let* gs := get series_data (lit "genres") (JList []) in
  let* gl := iter gs in
  let* genres := map_res (fun g => let* x := get g (lit "name") (JStr []) in as_str x) gl in
  Ok (name, desc, genres).


(** A triple whose subject is [u] and whose predicate is [rdfs:label]. *)
Definition is_label_of (u t : pystr) : bool := prefixb (u ++ [32%N] ++ rdfs_label) t.

(** A triple list that starts with [u a <cls>] and then [u rdfs:label o]. *)
Definition type_label_head (cls : string) (ts : list pystr) : Prop :=
  exists u o rest, ts = type_triple u cls :: triple u rdfs_label o :: rest.




(** The last line of an update block. *)
Definition block_end : pystr := lit "} ;" ++ [10%N; 10%N].

(** The text [main] writes, once [rstrip]ped, ends with [c]. *)
Definition ends_with_char (out : pystr) (c : N) : Prop :=
  exists pre, py_rstrip out = pre ++ [c].

(** [main]'s line buffer: empty, or ending with the last line of a block. *)
Definition good_buf (b : list pystr) : Prop := b = [] \/ exists pre, b = pre ++ [block_end].

(** The scanner state between two segments, after [count] values. *)
Definition clean (n : Z) : Stream.state := Stream.mkState [] 0 false false n.

(** [st] with the whitespace [w] in front of its buffer. *)
Definition prepend (w : pystr) (st : Stream.state) : Stream.state :=
  Stream.mkState (w ++ Stream.buffer st) (Stream.brace_depth st) (Stream.in_string st)
                 (Stream.escape_next st) (Stream.count st).

(** Fed from [st], the characters [s] complete a segment exactly at their
    last character, and its [obj_str] is [t]. *)
Fixpoint seg_from (st : Stream.state) (s t : pystr) : bool :=
  match s with
  | [] => false
  | x :: s' =>
      match Stream.step st x with
      | (st', None) => seg_from st' s' t
      | (_, Some o) => is_nil s' && pystr_eqb o t
      end
  end.

(** An array element as the scanner sees it: read from a fresh state it is
    one segment whose [obj_str] is the element's text itself, not [\]]. *)
Definition segment (t : pystr) : bool :=
  seg_from (clean 0) t t && negb (pystr_eqb t Stream.rbracket).

(** What [scan] does once a segment with [obj_str = t] completes after [n]
    values, the rest of the input being [r]. *)
Definition after_segment (limit : option Z) (n : Z) (t r : pystr)
    : list Stream.event * option exn :=
  if negb (is_nil t) && negb (pystr_eqb t Stream.rbracket) then
    match Json.loads t with
    | Ok obj =>
        if Stream.limit_reached limit (n + 1) then ([Stream.Yield obj], None)
        else let '(evs, e) := Stream.scan limit (clean (n + 1)) r in (Stream.Yield obj :: evs, e)
    | Err JSONDecodeError =>
        let '(evs, e) := Stream.scan limit (clean n) r in (Stream.Warn :: evs, e)
    | Err e => ([], Some e)
    end
  else Stream.scan limit (clean n) r.

(** [{"id": <n>}] as Python's [json.dumps] writes it, and its value. *)
Definition id_obj (n : string) : pystr := lit "{" ++ [dq] ++ lit "id" ++ [dq] ++ lit ": " ++ lit n ++ lit "}".
Definition id_val (n : Z) : json := JDict [(lit "id", JInt n)].

(** An array written one element per line, as in the specification's
    examples: [\[], then the elements separated by [",\n"], then [\]]. *)
Fixpoint array_body (es : list pystr) : pystr :=
  match es with
  | [] => []
  | [e] => e ++ [10%N]
  | e :: es' => e ++ lit "," ++ [10%N] ++ array_body es'
  end.

Definition array_text (es : list pystr) : pystr :=
  lit "[" ++ [10%N] ++ array_body es ++ lit "]" ++ [10%N].

(** The values [stream_json_array] keeps under [limit], in closed form: all of
    them when there is no limit or it is [0] ([if limit and ...] is false), the
    first [limit] ones for a positive limit, the first one for a negative limit
    ([count >= limit] already holds after the first). *)
Definition take_limit (limit : option Z) (vs : list json) : list json :=
  match limit with
  | Some l => if l =? 0 then vs else firstn (Z.to_nat (Z.max 1 l)) vs
  | None => vs
  end.

(** The same, step by step from [count = n], as the generator tests it. *)
Fixpoint limited (limit : option Z) (n : Z) (vs : list json) : list json :=
  match vs with
  | [] => []
  | v :: vs' => if Stream.limit_reached limit (n + 1) then [v] else v :: limited limit (n + 1) vs'
  end.

(** Reading back the body of a SPARQL double-quoted literal
    ([STRING_LITERAL2]): a backslash followed by one of [t b n r f], a
    double quote, a single quote or a backslash stands for that character,
    and a raw double quote, backslash, line feed or carriage return is not
    allowed there. *)
Definition echar (c : N) : option N :=
  if (c =? ch "t")%N then Some 9%N
  else if (c =? ch "b")%N then Some 8%N
  else if (c =? ch "n")%N then Some 10%N
  else if (c =? ch "r")%N then Some 13%N
  else if (c =? ch "f")%N then Some 12%N
  else if (c =? dq)%N then Some dq
  else if (c =? 39)%N then Some 39%N
  else if (c =? bs)%N then Some bs
  else None.

Fixpoint sparql_unescape (s : pystr) : option pystr :=
  match s with
  | [] => Some []
  | c :: r =>
      if (c =? bs)%N then
        match r with
        | e :: r' =>
            match echar e, sparql_unescape r' with
            | Some x, Some t => Some (x :: t)
            | _, _ => None
            end
        | [] => None
        end
      else if (c =? dq)%N || (c =? 10)%N || (c =? 13)%N then None
      else option_map (cons c) (sparql_unescape r)
  end.

(** Strict percent-decoding of a URI component: [%HH] is the byte [HH], an
    ASCII character other than [%] is itself. *)
Fixpoint percent_decode (s : pystr) : option (list N) :=
  match s with
  | [] => Some []
  | c :: r =>
      if (c =? ch "%")%N then
        match r with
        | h1 :: h2 :: r' =>
            match Json.hex_val h1, Json.hex_val h2, percent_decode r' with
            | Some a, Some b, Some t => Some ((16 * a + b)%N :: t)
            | _, _, _ => None
            end
        | _ => None
        end
      else if (c <? 128)%N then option_map (cons c) (percent_decode r)
      else None
  end.

(** The four [str.replace] calls of [escape_sparql_string], as a function of the text. *)
Definition esc4 (s : pystr) : pystr :=
  replace1 13 [bs; ch "r"] (replace1 10 [bs; ch "n"] (replace1 dq [bs; dq] (replace1 bs [bs; bs] s))).

(** [main]'s diagnostics sorted: the number of parse warnings, and the
    counts its progress lines report, in order. *)
Definition diag_warnings (ds : list diag) : nat :=
  List.length (filter (fun d => match d with DWarn => true | _ => false end) ds).

Definition progress_values (ds : list diag) : list Z :=
  flat_map (fun d => match d with DProgress n => [n] | _ => [] end) ds.

(** A diagnostic other than the final total. *)
Definition not_total (d : diag) : Prop :=
  match d with DTotal _ => False | _ => True end.

(** The counts [100, 200, ...] up to [n]. *)
Definition progress_upto (n : Z) : list Z :=
  map (fun i => 100 * Z.of_nat i) (seq 1 (Z.to_nat (n / 100))).

(* DEFINITIONS-END *)

(** * Proofs *)

Example safe_uri_ex1 : safe_uri (lit "Earth 616/x:y") = Ok (lit "Earth_616_x_y").
Proof. reflexivity. Qed.
Example safe_uri_ex2 : safe_uri (lit "a&b") = Ok (lit "a%26b").
Proof. reflexivity. Qed.
Example safe_uri_ex3 : safe_uri (lit "a%26b") = Ok (lit "a%2526b").
Proof. reflexivity. Qed.

Lemma ok_inj {A} (x y : A) : Ok x = Ok y -> x = y.
Proof. intros H; injection H; auto. Qed.

Module SafeUri.

Lemma hex_upper_range d :
  ((48 <= hex_upper d <= 57) \/ 65 <= hex_upper d)%N.
Proof.
  unfold hex_upper; change (ch "0") with 48%N; change (ch "A") with 65%N.
  destruct (N.ltb_spec d 10); lia.
Qed.

Lemma always_safe_not_sep b :
  always_safe b = true -> b <> ch " " /\ b <> ch "/" /\ b <> ch ":".
Proof.
  intros H; repeat split; intros ->; discriminate H.
Qed.

Lemma quote_byte_not_sep b c :
  In c (quote_byte b) -> c <> ch " " /\ c <> ch "/" /\ c <> ch ":".
Proof.
  unfold quote_byte; destruct (always_safe b) eqn:Hs.
  - intros [<- | []]; now apply always_safe_not_sep.
  - intros Hin.
    change (ch " ") with 32%N; change (ch "/") with 47%N; change (ch ":") with 58%N.
    pose proof (hex_upper_range (b / 16)); pose proof (hex_upper_range (b mod 16)).
    destruct Hin as [<- | [<- | [<- | []]]]; [change (ch "%") with 37%N | |]; lia.
Qed.

Lemma quote_not_sep s y c :
  quote s = Ok y -> In c y -> c <> ch " " /\ c <> ch "/" /\ c <> ch ":".
Proof.
  unfold quote; destruct s as [| c0 s0].
  - intros [= <-] [].
  - destruct (utf8_encode (c0 :: s0)) as [bs |] eqn:E; simpl; [| discriminate].
    intros [= <-] Hin. unfold quote_from_bytes in Hin.
    apply in_flat_map in Hin as (b & _ & Hb). eauto using quote_byte_not_sep.
Qed.

Lemma replace_char_id a b s :
  Forall (fun c => c <> a) s -> replace_char a b s = s.
Proof.
  unfold replace_char; induction 1 as [| c s Hc _ IH]; [reflexivity |].
  simpl; rewrite IH. destruct (N.eqb_spec c a); [contradiction | reflexivity].
Qed.

Lemma utf8_encode_ascii s :
  Forall (fun c => (c < 128)%N) s -> utf8_encode s = Ok s.
Proof.
  induction 1 as [| c s Hc _ IH]; [reflexivity |].
  simpl. unfold utf8_char. destruct (N.ltb_spec c 128); [| lia].
  simpl; rewrite IH; reflexivity.
Qed.

Lemma always_safe_ascii b : always_safe b = true -> (b < 128)%N.
Proof.
  unfold always_safe; simpl; intros H.
  repeat match type of H with
         | (_ || _)%bool = true => apply orb_true_iff in H as [H | H]
         | (_ && _)%bool = true => apply andb_true_iff in H as [H1 H2]
         end;
    repeat match goal with
           | H : (_ <=? _)%N = true |- _ => apply N.leb_le in H
           | H : (_ =? _)%N = true |- _ => apply N.eqb_eq in H
           end; lia.
Qed.

Lemma quote_from_bytes_safe s :
  Forall (fun c => always_safe c = true) s -> quote_from_bytes s = s.
Proof.
  unfold quote_from_bytes; induction 1 as [| c s Hc _ IH]; [reflexivity |].
  simpl; unfold quote_byte at 1; rewrite Hc, IH; reflexivity.
Qed.

Lemma quote_byte_length b :
  List.length (quote_byte b) = (if always_safe b then 1 else 3)%nat.
Proof. unfold quote_byte; destruct (always_safe b); reflexivity. Qed.

Lemma quote_from_bytes_length s :
  (List.length s <= List.length (quote_from_bytes s))%nat.
Proof.
  unfold quote_from_bytes; induction s as [| b s IH]; [simpl; lia |].
  cbn [flat_map List.length]; rewrite length_app, quote_byte_length.
  destruct (always_safe b); lia.
Qed.

Lemma quote_from_bytes_same_length s :
  List.length (quote_from_bytes s) = List.length s -> Forall (fun c => always_safe c = true) s.
Proof.
  induction s as [| b s IH]; intros H; [constructor |].
  pose proof (quote_from_bytes_length s).
  unfold quote_from_bytes in H; cbn [flat_map List.length] in H.
  rewrite length_app, quote_byte_length in H; fold (quote_from_bytes s) in H.
  destruct (always_safe b) eqn:Hb.
  - constructor; [exact Hb | apply IH; lia].
  - lia.
Qed.

Lemma utf8_char_bytes c bs : utf8_char c = Ok bs -> Forall (fun b => (b < 256)%N) bs.
Proof.
  assert (M0 : (c mod 64 < 64)%N) by (apply N.mod_lt; discriminate).
  assert (M1 : ((c / 64) mod 64 < 64)%N) by (apply N.mod_lt; discriminate).
  assert (M2 : ((c / 4096) mod 64 < 64)%N) by (apply N.mod_lt; discriminate).
  unfold utf8_char; intros H; apply Forall_forall; intros x Hx.
  destruct (N.ltb_spec c 128).
  { apply ok_inj in H; subst bs. destruct Hx as [<- | []]; lia. }
  destruct (N.ltb_spec c 2048).
  { assert (D : (c / 64 < 32)%N) by (apply N.Div0.div_lt_upper_bound; lia).
    apply ok_inj in H; subst bs.
    destruct Hx as [<- | [<- | []]]; lia. }
  destruct ((55296 <=? c) && (c <=? 57343))%N; [discriminate |].
  destruct (N.ltb_spec c 65536).
  { assert (D : (c / 4096 < 16)%N) by (apply N.Div0.div_lt_upper_bound; lia).
    apply ok_inj in H; subst bs.
    destruct Hx as [<- | [<- | [<- | []]]]; lia. }
  destruct (N.ltb_spec c 1114112); [| discriminate].
  assert (D : (c / 262144 < 5)%N) by (apply N.Div0.div_lt_upper_bound; lia).
  apply ok_inj in H; subst bs.
  destruct Hx as [<- | [<- | [<- | [<- | []]]]]; lia.
Qed.

Lemma utf8_encode_bytes s bs : utf8_encode s = Ok bs -> Forall (fun b => (b < 256)%N) bs.
Proof.
  revert bs; induction s as [| c s IH]; simpl; intros bs.
  - intros [= <-]; constructor.
  - destruct (utf8_char c) as [b |] eqn:Ec; simpl; [| discriminate].
    destruct (utf8_encode s) as [r |]; simpl; [| discriminate].
    intros [= <-]. apply Forall_app; split; [eapply utf8_char_bytes; eauto | apply IH; reflexivity].
Qed.

Lemma hex_upper_lt d : (d < 16)%N -> (hex_upper d < 128)%N.
Proof.
  unfold hex_upper; change (ch "0") with 48%N; change (ch "A") with 65%N.
  destruct (N.ltb_spec d 10); lia.
Qed.

Lemma quote_byte_ascii b c : (b < 256)%N -> In c (quote_byte b) -> (c < 128)%N.
Proof.
  intros Hb; unfold quote_byte; destruct (always_safe b) eqn:Hs.
  - intros [<- | []]; now apply always_safe_ascii.
  - assert (b / 16 < 16)%N by (apply N.Div0.div_lt_upper_bound; lia).
    pose proof (N.mod_lt b 16 ltac:(discriminate)).
    intros [<- | [<- | [<- | []]]];
      [change (ch "%") with 37%N; lia | apply hex_upper_lt; lia | apply hex_upper_lt; lia].
Qed.

Lemma safe_uri_output_ascii x y :
  safe_uri x = Ok y -> Forall (fun c => (c < 128)%N /\ c <> ch " " /\ c <> ch "/" /\ c <> ch ":") y.
Proof.
  unfold safe_uri, quote.
  match goal with |- context [match ?r with [] => _ | _ :: _ => _ end] => destruct r as [| c0 r0] end.
  - intros [= <-]; constructor.
  - destruct (utf8_encode (c0 :: r0)) as [bs |] eqn:E; simpl; [| discriminate].
    intros [= <-]. apply Forall_forall; intros c Hin.
    pose proof (utf8_encode_bytes _ _ E) as Hbs.
    unfold quote_from_bytes in Hin; apply in_flat_map in Hin as (b & Hb & Hc).
    split; [eapply quote_byte_ascii; eauto; eapply Forall_forall in Hbs; eauto |].
    eauto using quote_byte_not_sep.
Qed.

Lemma safe_uri_safe_input x :
  Forall (fun c => always_safe c = true) x -> safe_uri x = Ok x.
Proof.
  intros H.
  assert (Hsep := Forall_impl _ (fun c Hc => always_safe_not_sep c Hc) H).
  unfold safe_uri.
  rewrite (replace_char_id (ch " ")) by (eapply Forall_impl; [| exact Hsep]; simpl; tauto).
  rewrite (replace_char_id (ch "/")) by (eapply Forall_impl; [| exact Hsep]; simpl; tauto).
  rewrite (replace_char_id (ch ":")) by (eapply Forall_impl; [| exact Hsep]; simpl; tauto).
  unfold quote; destruct x as [| c x]; [reflexivity |].
  rewrite utf8_encode_ascii by (eapply Forall_impl; [| exact H]; exact always_safe_ascii).
  cbn [bind]; rewrite quote_from_bytes_safe by exact H; reflexivity.
Qed.

Lemma safe_uri_error x e : safe_uri x = Err e -> e = UnicodeEncodeError.
Proof.
  unfold safe_uri, quote.
  match goal with |- context [match ?r with [] => _ | _ :: _ => _ end] => generalize r end.
  intros [| c r]; [discriminate |].
  generalize (c :: r); intros s.
  assert (forall s, utf8_encode s = Err e -> e = UnicodeEncodeError) as Hu.
  { clear; induction s as [| c s IH]; simpl; [discriminate |].
    unfold utf8_char.
    destruct (c <? 128)%N; [| destruct (c <? 2048)%N;
      [| destruct ((55296 <=? c) && (c <=? 57343))%N;
         [| destruct (c <? 65536)%N; [| destruct (c <? 1114112)%N]]]];
      simpl; try (intros [= <-]; reflexivity);
      destruct (utf8_encode s); simpl; try discriminate; auto. }
  destruct (utf8_encode s) eqn:E; simpl; [discriminate |].
  intros [= <-]; eauto.
Qed.

Lemma safe_uri_stable_output x y :
  safe_uri x = Ok y ->
  (safe_uri y = Ok y <-> Forall (fun c => always_safe c = true) y).
Proof.
  intros Hx; split; [| apply safe_uri_safe_input].
  pose proof (safe_uri_output_ascii _ _ Hx) as Hy.
  unfold safe_uri.
  rewrite (replace_char_id (ch " ")) by (eapply Forall_impl; [| exact Hy]; simpl; tauto).
  rewrite (replace_char_id (ch "/")) by (eapply Forall_impl; [| exact Hy]; simpl; tauto).
  rewrite (replace_char_id (ch ":")) by (eapply Forall_impl; [| exact Hy]; simpl; tauto).
  unfold quote; destruct y as [| c y]; [constructor |].
  rewrite utf8_encode_ascii by (eapply Forall_impl; [| exact Hy]; simpl; tauto).
  cbn [bind]; intros E; apply ok_inj in E.
  apply quote_from_bytes_same_length; rewrite E; reflexivity.
Qed.

Lemma utf8_char_ok c :
  (c < 55296 \/ 57343 < c < 1114112)%N -> exists b, utf8_char c = Ok b.
Proof.
  intros Hc; unfold utf8_char.
  destruct (N.ltb_spec c 128); [eauto |].
  destruct (N.ltb_spec c 2048); [eauto |].
  destruct (N.leb_spec 55296 c), (N.leb_spec c 57343); simpl; try lia;
    (destruct (N.ltb_spec c 65536); [eauto |]);
    (destruct (N.ltb_spec c 1114112); [eauto | lia]).
Qed.

Lemma utf8_encode_ok s :
  Forall (fun c => c < 55296 \/ 57343 < c < 1114112)%N s -> exists bs, utf8_encode s = Ok bs.
Proof.
  induction s as [| c s IH]; intros H; [exists []; reflexivity |].
  inversion H as [| c' s' Hc Hs]; subst.
  destruct (IH Hs) as [bs Hbs]; destruct (utf8_char_ok c Hc) as [b Hb].
  simpl; rewrite Hb, Hbs; eexists; reflexivity.
Qed.

Lemma replace_char_forall (P : N -> Prop) a b s :
  P b -> Forall P s -> Forall P (replace_char a b s).
Proof.
  intros Hb Hs; unfold replace_char; apply Forall_map.
  eapply Forall_impl; [| exact Hs]; intros c Hc; destruct (c =? a)%N; auto.
Qed.

(** [safe_uri] raises only on a string holding a lone surrogate. *)
Lemma safe_uri_ok x :
  Forall (fun c => c < 55296 \/ 57343 < c < 1114112)%N x -> exists y, safe_uri x = Ok y.
Proof.
  intros Hx; unfold safe_uri.
  assert (H95 : (ch "_" < 55296 \/ 57343 < ch "_" < 1114112)%N) by (left; vm_compute; reflexivity).
  pose proof (replace_char_forall _ (ch ":") _ _ H95
               (replace_char_forall _ (ch "/") _ _ H95
                 (replace_char_forall _ (ch " ") _ _ H95 Hx))) as H.
  revert H; generalize (replace_char (ch ":") (ch "_")
                          (replace_char (ch "/") (ch "_") (replace_char (ch " ") (ch "_") x))).
  intros [| c r] H; [eexists; reflexivity |].
  destruct (utf8_encode_ok _ H) as [bs Hbs].
  unfold quote; rewrite Hbs; eexists; reflexivity.
Qed.

(** C2 (corrected).  For every string [x]: if [safe_uri x] returns [y], then
    [y] holds no space, slash or colon (and only ASCII), and [safe_uri y = y]
    exactly when every character of [y] is unreserved (ASCII letter, digit,
    [_ . - ~]), that is when the first call percent-encoded nothing; if it
    raises, the exception is [UnicodeEncodeError], and it cannot raise on a
    string without lone surrogates; on a string made only of unreserved
    characters [safe_uri] is the identity. *)
Theorem safe_uri_separators_and_fixpoints (x : pystr) :
  match safe_uri x with
  | Ok y =>
      Forall (fun c => (c < 128)%N /\ c <> ch " " /\ c <> ch "/" /\ c <> ch ":") y
      /\ (safe_uri y = Ok y <-> Forall (fun c => always_safe c = true) y)
  | Err e =>
      e = UnicodeEncodeError
      /\ Exists (fun c => ~ (c < 55296 \/ 57343 < c < 1114112)%N) x
  end
  /\ (Forall (fun c => always_safe c = true) x -> safe_uri x = Ok x).
Proof.
  split; [| apply safe_uri_safe_input].
  destruct (safe_uri x) as [y | e] eqn:E.
  - split; [eapply safe_uri_output_ascii; exact E |].
    eapply safe_uri_stable_output; exact E.
  - split; [eapply safe_uri_error; exact E |].
    rewrite Exists_Forall_neg by (intros c; lia).
    intros Hx; destruct (safe_uri_ok x Hx) as [y Hy]; congruence.
Qed.

(** C2: re-applying [safe_uri] changes its output: [a&b] gives [a%26b], whose
    [%] is encoded again. *)
Lemma safe_uri_not_idempotent :
  safe_uri (lit "a&b") = Ok (lit "a%26b")
  /\ safe_uri (lit "a%26b") = Ok (lit "a%2526b")
  /\ lit "a%2526b" <> lit "a%26b".
Proof. split; [| split]; [vm_compute; reflexivity | vm_compute; reflexivity | discriminate]. Qed.

End SafeUri.

(** ** Generators *)

Module Generators.

Section Generic.

Variable low : pystr -> pystr.
Variable pr : N -> bool.

Lemma get_dict kv k d :
  get (JDict kv) k d = Ok (match dict_lookup k kv with Some v => v | None => d end).
Proof. unfold get; destruct (dict_lookup k kv); reflexivity. Qed.

Lemma getitem_absent kv k : dict_lookup k kv = None -> getitem (JDict kv) k = Err KeyError.
Proof. intros E; unfold getitem; rewrite E; reflexivity. Qed.

(** [str()] of a falsy value, and [safe_uri] of it, never raise. *)
Lemma safe_uri_v_falsy v : truthy v = false -> exists su, safe_uri_v pr v = Ok su.
Proof.
  destruct v as [| b | z | f | s | l | kv]; simpl; intros H.
  - eexists; reflexivity.
  - destruct b; [discriminate | eexists; reflexivity].
  - destruct z; [eexists; reflexivity | discriminate | discriminate].
  - destruct f as [sg | sg | | sg m e]; try discriminate; destruct sg; eexists; reflexivity.
  - destruct s; [eexists; reflexivity | discriminate].
  - destruct l; [eexists; reflexivity | discriminate].
  - destruct kv; [eexists; reflexivity | discriminate].
Qed.

Lemma bind_err {A B} e (f : A -> res B) : bind (Err e) f = Err e.
Proof. reflexivity. Qed.

Lemma bind_ok {A B} (a : A) (f : A -> res B) : bind (Ok a) f = f a.
Proof. reflexivity. Qed.

End Generic.

(** C10 (confirmed).  A universe record (a dict) whose ["name"] is absent or
    falsy (in particular empty) gives no triples and raises nothing, whatever
    its ["id"]; a series or character record without a ["name"] key makes its
    generator raise. *)
Theorem universe_without_name_skipped (low : pystr -> pystr) (pr : N -> bool)
    (kv : list (pystr * json)) :
  match dict_lookup (lit "name") kv with Some v => truthy v = false | None => True end ->
  generate_universe_triples low pr (JDict kv) = Ok []
  /\ (dict_lookup (lit "name") kv = None ->
      (forall series_id, exists e, generate_series_triples low pr series_id (JDict kv) = Err e)
      /\ (forall series_id issue_id,
            exists e, generate_character_triples low pr (JDict kv) series_id issue_id = Err e)).
Proof.
  intros Hname; split.
  - unfold generate_universe_triples.
    rewrite get_dict; cbn [bind].
    destruct (safe_uri_v_falsy pr
                (match dict_lookup (lit "name") kv with Some v => v | None => JStr [] end))
      as [su Hsu]; [destruct (dict_lookup (lit "name") kv); [exact Hname | reflexivity] |].
    rewrite Hsu; cbn [bind]; rewrite get_dict; cbn [bind]; rewrite get_dict; cbn [bind].
    replace (truthy (match dict_lookup (lit "name") kv with Some v => v | None => JNull end))
      with false by (destruct (dict_lookup (lit "name") kv); [symmetry; exact Hname | reflexivity]).
    rewrite orb_true_r; reflexivity.
  - intros Hnone; split.
    + intros sid; unfold generate_series_triples.
      destruct (py_str pr sid) as [x | e]; cbn [bind]; [| eauto].
      rewrite getitem_absent by exact Hnone; cbn [bind]; eauto.
    + intros sid iid; unfold generate_character_triples.
      rewrite get_dict; cbn [bind].
      destruct (truthy _).
      * destruct (py_str pr _) as [x | e]; cbn [bind]; [| eauto].
        rewrite getitem_absent by exact Hnone; cbn [bind]; eauto.
      * rewrite getitem_absent by exact Hnone; cbn [bind]; eauto.
Qed.

(** C10 at the record [{"id": 3, "name": ""}]. *)
Lemma universe_without_name_skipped_witness :
  generate_universe_triples ascii_lower ascii_isprintable
    (JDict [(lit "id", JInt 3); (lit "name", JStr [])]) = Ok [].
Proof.
  apply (universe_without_name_skipped ascii_lower ascii_isprintable
           [(lit "id", JInt 3); (lit "name", JStr [])]).
  vm_compute; reflexivity.
Defined.

Lemma lower_v_as_str low v : lower_v low v = (let* s := as_str v in Ok (low s)).
Proof. destruct v; reflexivity. Qed.

Lemma map_res_lower low gl :
  map_res (fun g => let* x := get g (lit "name") (JStr []) in lower_v low x) gl
  = (let* l := map_res (fun g => let* x := get g (lit "name") (JStr []) in as_str x) gl in
     Ok (map low l)).
Proof.
  induction gl as [| g gl IH]; [reflexivity |].
  cbn [map_res]; destruct (get g (lit "name") (JStr [])) as [x | e]; cbn [bind]; [| reflexivity].
  rewrite lower_v_as_str; destruct (as_str x) as [s | e]; cbn [bind]; [| reflexivity].
  rewrite IH.
  destruct (map_res (fun g => let* x := get g (lit "name") (JStr []) in as_str x) gl);
    reflexivity.
Qed.

(** C7 (confirmed).  [infer_tone] lower-cases the name, description and genre
    names and returns the tone of the first keyword set that matches, in the
    order dark, comedic, wholesome, horror (genre named "horror" or a horror
    word, giving "Dark"), default "Dramatic"; reading a non-string name,
    description or genre name raises as the inputs do.  With [str.lower] acting
    as ASCII lowering on ASCII text, the three records of the spec give "Dark",
    "Wholesome" and "Dramatic". *)
Theorem infer_tone_first_match (low : pystr -> pystr) :
  (forall s, Forall (fun c => (c < 128)%N) s -> low s = ascii_lower s) ->
  (forall series_data,
     infer_tone low series_data =
     match tone_inputs series_data with
     | Ok (name, desc, genres) =>
         Ok (first_rule spec_tone_rules (low name ++ low desc) (map low genres) (lit "Dramatic"))
     | Err e => Err e
     end)
  /\ infer_tone low (JDict [(lit "name", JStr (lit "Dark Nights")); (lit "desc", JStr []);
                            (lit "genres", JList [])]) = Ok (lit "Dark")
  /\ infer_tone low (JDict [(lit "name", JStr (lit "Fun Adventures")); (lit "desc", JStr []);
                            (lit "genres", JList [])]) = Ok (lit "Wholesome")
  /\ infer_tone low (JDict [(lit "name", JStr (lit "Ordinary Tales")); (lit "desc", JStr []);
                            (lit "genres", JList [])]) = Ok (lit "Dramatic").
Proof.
  intros Hlow.
  assert (Hgen : forall series_data,
     infer_tone low series_data =
     match tone_inputs series_data with
     | Ok (name, desc, genres) =>
         Ok (first_rule spec_tone_rules (low name ++ low desc) (map low genres) (lit "Dramatic"))
     | Err e => Err e
     end).
  { intros sd; unfold infer_tone, tone_inputs.
    destruct (get sd (lit "name") (JStr [])) as [n | e]; cbn [bind]; [| reflexivity].
    rewrite lower_v_as_str; destruct (as_str n) as [name | e]; cbn [bind]; [| reflexivity].
    destruct (get sd (lit "desc") (JStr [])) as [d | e]; cbn [bind]; [| reflexivity].
    rewrite lower_v_as_str; destruct (as_str d) as [desc | e]; cbn [bind]; [| reflexivity].
    destruct (get sd (lit "genres") (JList [])) as [gs | e]; cbn [bind]; [| reflexivity].
    destruct (iter gs) as [gl | e]; cbn [bind]; [| reflexivity].
    rewrite map_res_lower; destruct (map_res _ gl) as [genres | e]; cbn [bind]; [| reflexivity].
    unfold spec_tone_rules; cbn [first_rule].
    destruct (any_in _ ["dark"; "noir"; "grim"; "gritty"; "shadow"]%string); [reflexivity |].
    destruct (any_in _ ["funny"; "comedy"; "humor"; "laugh"; "silly"]%string); [reflexivity |].
    destruct (any_in _ ["adventure"; "fun"; "family"; "friends"]%string); [reflexivity |].
    destruct (_ || _); reflexivity. }
  split; [exact Hgen |].
  rewrite !Hgen; cbn -[first_rule].
  rewrite !Hlow by (repeat constructor).
  repeat split; vm_compute; reflexivity.
Qed.

(** C7 with [str.lower] taken as ASCII lowering. *)
Lemma infer_tone_first_match_witness :
  infer_tone ascii_lower (JDict [(lit "name", JStr (lit "Fun Adventures")); (lit "desc", JStr []);
                                 (lit "genres", JList [])]) = Ok (lit "Wholesome").
Proof.
  apply (infer_tone_first_match ascii_lower); intros s _; reflexivity.
Defined.

(** Walk a chain of [let*] in a hypothesis [... = Ok ts], keeping the [Ok] branch. *)
Ltac run_binds H :=
  repeat match type of H with
  | bind ?m _ = _ =>
      let E := fresh "E" in destruct m eqn:E; cbn [bind] in H; [| discriminate H]
  | context [match ?p with (_, _) => _ end] => destruct p
  end.

Lemma prefixb_app_same a p s : prefixb (a ++ p) (a ++ s) = prefixb p s.
Proof. induction a as [| c a IH]; simpl; [reflexivity |]; rewrite N.eqb_refl; exact IH. Qed.

Lemma label_of_ns u x o : is_label_of u (triple u (ns_uri x) o) = false.
Proof. unfold is_label_of, triple; rewrite prefixb_app_same; reflexivity. Qed.

Lemma when_truthy_forall (P : pystr -> Prop) d k f l :
  (forall x l', f x = Ok l' -> Forall P l') -> when_truthy d k f = Ok l -> Forall P l.
Proof.
  intros Hf; unfold when_truthy.
  destruct (get d (lit k) JNull) as [v |]; cbn [bind]; [| discriminate].
  destruct (truthy v); [| intros E; apply ok_inj in E; subst; constructor].
  destruct (getitem d (lit k)) as [x |]; cbn [bind]; [apply Hf | discriminate].
Qed.

Lemma when_in_forall (P : pystr -> Prop) d k f l :
  (forall x l', f x = Ok l' -> Forall P l') -> when_in d k f = Ok l -> Forall P l.
Proof.
  intros Hf; unfold when_in.
  destruct (contains (lit k) d) as [b |]; cbn [bind]; [| discriminate].
  destruct b; [| intros E; apply ok_inj in E; subst; constructor].
  destruct (getitem d (lit k)) as [x |]; cbn [bind]; [| discriminate].
  destruct (truthy x); [apply Hf | intros E; apply ok_inj in E; subst; constructor].
Qed.

Lemma when_truthy_cases d k f l :
  when_truthy d k f = Ok l ->
  exists v, get d (lit k) JNull = Ok v
            /\ (truthy v = false -> l = [])
            /\ (truthy v = true -> exists x, f x = Ok l).
Proof.
  unfold when_truthy.
  destruct (get d (lit k) JNull) as [v |]; cbn [bind]; [| discriminate].
  intros H; exists v; split; [reflexivity |].
  destruct (truthy v).
  - destruct (getitem d (lit k)) as [x |]; cbn [bind]; [| discriminate].
    split; [discriminate | eauto].
  - apply ok_inj in H; split; [auto | discriminate].
Qed.

(** The optional one-triple fields of an issue all have the issue as subject
    and a [NAMESPACE] predicate. *)
Lemma escaped_field_no_label pr u d k pred l :
  escaped_field pr u d k pred = Ok l -> Forall (fun t => is_label_of u t = false) l.
Proof.
  apply when_truthy_forall; intros x l'.
  destruct (escape_sparql_string pr x); cbn [bind]; [| discriminate].
  intros E; apply ok_inj in E; subst; repeat constructor; apply label_of_ns.
Qed.

Lemma raw_typed_field_no_label pr u d k pred ty l :
  raw_typed_field pr u d k pred ty = Ok l -> Forall (fun t => is_label_of u t = false) l.
Proof.
  apply when_truthy_forall; intros x l'.
  destruct (py_str pr x); cbn [bind]; [| discriminate].
  intros E; apply ok_inj in E; subst; repeat constructor; apply label_of_ns.
Qed.

Ltac label_false := first [apply label_of_ns | vm_compute; reflexivity].

(** One piece of an issue's triple list has no label triple for the issue. *)
Ltac no_label_piece :=
  match goal with
  | H : escaped_field _ _ _ _ _ = Ok ?l |- Forall _ ?l =>
      eapply escaped_field_no_label; exact H
  | H : raw_typed_field _ _ _ _ _ _ = Ok ?l |- Forall _ ?l =>
      eapply raw_typed_field_no_label; exact H
  | H : when_truthy _ _ _ = Ok ?l |- Forall _ ?l =>
      eapply when_truthy_forall; [| exact H];
      let x := fresh "x" in let l' := fresh "l" in let Hx := fresh "Hx" in
      intros x l' Hx; cbv beta in Hx; run_binds Hx; apply ok_inj in Hx; subst l';
      repeat constructor; label_false
  | H : when_in _ _ _ = Ok ?l |- Forall _ ?l =>
      eapply when_in_forall; [| exact H];
      let x := fresh "x" in let l' := fresh "l" in let Hx := fresh "Hx" in
      intros x l' Hx; cbv beta in Hx; run_binds Hx; apply ok_inj in Hx; subst l';
      repeat constructor; label_false
  | |- Forall _ (_ :: _) => repeat constructor; label_false
  end.

Lemma issue_rest_no_label low pr issue ts :
  generate_issue_triples low pr issue = Ok ts ->
  exists u t_name rest,
    ts = type_triple u "StoryExpression" :: t_name ++ rest
    /\ when_truthy issue "issue_name" (fun v =>
         let* e := escape_sparql_string pr v in
         Ok [triple u rdfs_label (strlit e); triple u (ns "issueTitle") (strlit e)]) = Ok t_name
    /\ Forall (fun t => is_label_of u t = false) rest.
Proof.
  intros H; unfold generate_issue_triples in H.
  run_binds H.
  apply ok_inj in H; subst ts.
  eexists _, _, _; split; [cbn [app]; reflexivity |]; split; [eassumption |].
  repeat (apply Forall_app; split); no_label_piece.
Qed.

Lemma map_res_concat_forall {A} (P : pystr -> Prop) (f : A -> res (list pystr)) l t :
  (forall x y, f x = Ok y -> Forall P y) -> map_res f l = Ok t -> Forall P (List.concat t).
Proof.
  intros Hf; revert t; induction l as [| x l IH]; intros t H; cbn [map_res] in H.
  - apply ok_inj in H; subst t; constructor.
  - destruct (f x) as [y | e] eqn:Fx; cbn [bind] in H; [| discriminate H].
    destruct (map_res f l) as [ys | e] eqn:M; cbn [bind] in H; [| discriminate H].
    apply ok_inj in H; subst t; cbn [List.concat].
    apply Forall_app; split; [exact (Hf _ _ Fx) | exact (IH _ eq_refl)].
Qed.

(** A triple about the credit or the person of a credit is a label triple
    for neither: the subjects differ after [data/], and the predicates of
    the credit's triples are not [rdfs:label]. *)
Ltac credit_label_false :=
  split;
  first [ vm_compute; reflexivity
        | unfold is_label_of, type_triple, triple; rewrite prefixb_app_same;
          vm_compute; reflexivity ].

(** C5: person, org, series, character and group triples start with the type
    triple and then the label triple; universe triples are empty or start so;
    issue triples start with the type triple, followed by the label triple
    only when [issue_name] is truthy, and otherwise contain no label triple
    for the issue at all; credit triples start with the type triple followed
    by the person's [hasCreditRelationship] triple, and none of them is a
    label triple for the credit or for the person. *)
Theorem generators_type_then_label low pr :
  (forall a b ts, generate_person_triples pr a b = Ok ts -> type_label_head "Person" ts) /\
  (forall a b t ts, generate_org_triples pr a b t = Ok ts -> type_label_head "Org" ts) /\
  (forall a b ts, generate_series_triples low pr a b = Ok ts -> type_label_head "StoryWork" ts) /\
  (forall c s i ts, generate_character_triples low pr c s i = Ok ts ->
                    type_label_head "Character" ts) /\
  (forall t ts, generate_group_triples pr t = Ok ts -> type_label_head "Group" ts) /\
  (forall d ts, generate_universe_triples low pr d = Ok ts ->
                ts = [] \/ type_label_head "Universe" ts) /\
  (forall d ts, generate_issue_triples low pr d = Ok ts ->
     exists u rest v, ts = type_triple u "StoryExpression" :: rest
       /\ get d (lit "issue_name") JNull = Ok v
       /\ (truthy v = true -> exists o rest', rest = triple u rdfs_label o :: rest')
       /\ (truthy v = false -> Forall (fun t => is_label_of u t = false) rest)) /\
  (forall i c n ts, generate_credit_triples pr i c n = Ok ts ->
     exists cu pu rest, ts = type_triple cu "CreditRelationship"
                             :: triple pu (ns "hasCreditRelationship") cu :: rest
       /\ Forall (fun t => is_label_of cu t = false /\ is_label_of pu t = false) ts).
Proof.
  repeat split.
  - intros a b ts H; unfold generate_person_triples in H; run_binds H.
    apply ok_inj in H; subst; eexists _, _, _; reflexivity.
  - intros a b t ts H; unfold generate_org_triples in H; run_binds H.
    apply ok_inj in H; subst; eexists _, _, _; reflexivity.
  - intros a b ts H; unfold generate_series_triples in H; run_binds H.
    apply ok_inj in H; subst; eexists _, _, _; reflexivity.
  - intros c s i ts H; unfold generate_character_triples in H; run_binds H.
    apply ok_inj in H; subst; eexists _, _, _; reflexivity.
  - intros t ts H; destruct t; try discriminate H.
    unfold generate_group_triples in H; run_binds H.
    apply ok_inj in H; subst; eexists _, _, _; reflexivity.
  - intros d ts H; unfold generate_universe_triples in H; run_binds H.
    destruct (negb _ || negb _); [left; apply ok_inj in H; auto |].
    run_binds H; apply ok_inj in H; subst; right; eexists _, _, _; reflexivity.
  - intros d ts H.
    destruct (issue_rest_no_label _ _ _ _ H) as (u & t_name & rest & -> & Hn & Hr).
    destruct (when_truthy_cases _ _ _ _ Hn) as (v & Hv & Hf & Ht).
    exists u, (t_name ++ rest), v; split; [reflexivity |]; split; [exact Hv |]; split.
    + intros Tv; destruct (Ht Tv) as (x & Hx); run_binds Hx.
      apply ok_inj in Hx; subst; eexists _, _; reflexivity.
    + intros Fv; rewrite (Hf Fv); exact Hr.
  - intros i c n ts H; unfold generate_credit_triples in H; run_binds H.
    apply ok_inj in H; subst; eexists _, _, _; split; [reflexivity |].
    apply Forall_app; split.
    + repeat (apply Forall_cons; [credit_label_false |]); apply Forall_nil.
    + eapply map_res_concat_forall; [| eassumption].
      intros x y Hx; cbv beta in Hx; run_binds Hx; apply ok_inj in Hx; subst y.
      repeat (apply Forall_cons; [credit_label_false |]); apply Forall_nil.
Qed.

(** C5 counterexample: an issue record with only an [id] is accepted, its
    second triple is the [Manifestation] type triple, and the issue gets no
    label triple at all. *)
Lemma issue_without_name_no_label :
  let u := data_uri (lit "expression/issue_1") in
  let m := data_uri (lit "manifestation/issue_1") in
  let f := data_uri (lit "format/SingleIssue") in
  let ts := [type_triple u "StoryExpression"; type_triple m "Manifestation";
             triple u (ns "hasManifestation") m; triple m (ns "manifestationOf") u;
             type_triple f "FormatClass"; triple f rdfs_label (strlit (lit "SingleIssue"));
             triple m (ns "hasFormatClass") f] in
  generate_issue_triples ascii_lower ascii_isprintable (JDict [(lit "id", JInt 1)]) = Ok ts
  /\ Forall (fun t => is_label_of u t = false) ts.
Proof. split; vm_compute; [reflexivity | repeat constructor]. Qed.

End Generators.

Module Scores.





























End Scores.

Module Driver.

Lemma lstrip_app_l p u v :
  lstrip_by p u <> [] -> lstrip_by p (u ++ v) = lstrip_by p u ++ v.
Proof.
  induction u as [| c u IH]; simpl; [congruence |].
  destruct (p c); [exact IH | reflexivity].
Qed.

Lemma rstrip_app_r p s t :
  rstrip_by p t <> [] -> rstrip_by p (s ++ t) = s ++ rstrip_by p t.
Proof.
  unfold rstrip_by; intros H.
  rewrite rev_app_distr, lstrip_app_l, rev_app_distr, rev_involutive; [reflexivity |].
  intros E; apply H; rewrite E; reflexivity.
Qed.

Lemma header_rstrip f : ends_with_char (header f) (ch "/").
Proof.
  unfold header, ends_with_char, py_rstrip.
  set (T := [10%N] ++ lit "# Namespace: " ++ NAMESPACE ++ [10%N]
            ++ lit "# Base URI: " ++ BASE_URI ++ [10%N; 10%N]).
  assert (HT : rstrip_by py_isspace T = removelast (rstrip_by py_isspace T) ++ [ch "/"])
    by (vm_compute; reflexivity).
  assert (NT : rstrip_by py_isspace T <> []) by (rewrite HT; destruct (removelast _); discriminate).
  assert (NfT : rstrip_by py_isspace (f ++ T) <> [])
    by (rewrite rstrip_app_r by exact NT; destruct f; [exact NT | discriminate]).
  exists (lit "# SPARQL INSERT statements generated from " ++ f ++ removelast (rstrip_by py_isspace T)).
  rewrite rstrip_app_r by exact NfT; rewrite rstrip_app_r by exact NT.
  rewrite HT, !app_assoc; reflexivity.
Qed.

Lemma process_issue_shape low pr issue lines :
  process_issue low pr issue = Ok lines -> lines = [] \/ exists pre, lines = pre ++ [block_end].
Proof.
  intros H; unfold process_issue in H.
  Generators.run_binds H.
  match type of H with (match ?l with [] => _ | _ :: _ => _ end) = _ => destruct l end.
  - left; apply ok_inj in H; auto.
  - right; apply ok_inj in H; subst lines.
    eexists; rewrite app_comm_cons; reflexivity.
Qed.

Lemma main_loop_good low pr skip evs : forall sk ic buf err b' ic' err' e',
  main_loop low pr skip sk ic evs buf err = (b', ic', err', e') -> good_buf buf -> good_buf b'.
Proof.
  induction evs as [| ev evs IH]; intros sk ic buf err b' ic' err' e' H G; simpl in H.
  - injection H as <- _ _ _; exact G.
  - destruct ev as [j |].
    + destruct (sk <? skip); [eapply IH; eauto |].
      destruct (process_issue low pr j) as [lines | x] eqn:P.
      * eapply IH; [exact H |].
        destruct (process_issue_shape _ _ _ _ P) as [-> | [pre ->]].
        -- rewrite app_nil_r; exact G.
        -- right; exists (buf ++ pre); rewrite app_assoc; reflexivity.
      * injection H as <- _ _ _; exact G.
    + eapply IH; eauto.
Qed.

Lemma final_text_good pre :
  final_text (pre ++ [block_end]) = List.concat pre ++ lit "} " ++ [10%N].
Proof.
  unfold final_text.
  assert (R : py_rstrip (List.concat (pre ++ [block_end])) = List.concat pre ++ lit "} ;").
  { rewrite concat_app; cbn [List.concat]; rewrite app_nil_r.
    unfold py_rstrip; rewrite rstrip_app_r by (vm_compute; discriminate).
    vm_compute (rstrip_by _ block_end); reflexivity. }
  assert (exists a l, pre ++ [block_end] = a :: l) as (a & l & E)
    by (destruct pre; eexists _, _; reflexivity).
  rewrite E; cbv beta iota zeta; rewrite <- E, R.
  unfold endswith; rewrite rev_app_distr; cbn.
  rewrite removelast_app by discriminate; cbn.
  rewrite <- app_assoc; reflexivity.
Qed.
(** C8: whatever the input, the text [main] writes never ends with the block
    separator [;], even once trailing whitespace is stripped: it ends with
    the [/] of the header when no block is written, and with the [}] of the
    last block otherwise. *)
Theorem main_output_no_trailing_semicolon low pr f text limit skip :
  exists c, ends_with_char (output (main low pr f text limit skip)) c /\ c <> ch ";".
Proof.
  unfold main.
  destruct (Stream.stream_json_array text limit) as [evs sexn].
  destruct (main_loop low pr skip 0 0 evs [] []) as [[[buf ic] err] lexn] eqn:L.
  pose proof (main_loop_good _ _ _ _ _ _ _ _ _ _ _ _ L (or_introl eq_refl)) as G.
  assert (Hh : exists c, ends_with_char (header f) c /\ c <> ch ";")
    by (exists (ch "/"); split; [apply header_rstrip | discriminate]).
  destruct lexn as [x |]; [exact Hh |].
  destruct sexn as [x |]; [exact Hh |].
  cbn [output].
  destruct G as [-> | [pre ->]].
  - cbn [final_text]; rewrite app_nil_r; exact Hh.
  - rewrite final_text_good; exists (ch "}"); split; [| discriminate].
    exists (header f ++ List.concat pre).
    unfold py_rstrip; rewrite app_assoc, rstrip_app_r by (vm_compute; discriminate).
    vm_compute (rstrip_by _ (lit "} " ++ [10%N])); reflexivity.
Qed.

Lemma step_count st c : Stream.count (fst (Stream.step st c)) = Stream.count st.
Proof.
  unfold Stream.step.
  destruct (Stream.escape_next st); [reflexivity |].
  destruct (_ && _); [reflexivity |].
  destruct (_ && _ && _); reflexivity.
Qed.

(** With a limit [l], the generator yields at most [l - count] more values. *)
Lemma scan_yields_bound l : forall s st evs e,
  0 < l -> Stream.count st < l -> Stream.scan (Some l) st s = (evs, e) ->
  Z.of_nat (List.length (Stream.yields evs)) <= l - Stream.count st.
Proof.
  induction s as [| c s IH]; intros st evs e Hl Hc H; simpl in H.
  - injection H as <- _; simpl; lia.
  - pose proof (step_count st c) as Sc.
    destruct (Stream.step st c) as [st' [o |]]; simpl in Sc; [| rewrite <- Sc; eapply IH; eauto; lia].
    destruct (_ && _); [| rewrite <- Sc; eapply IH; eauto; lia].
    destruct (Json.loads o) as [obj | x].
    + destruct (negb (l =? 0) && (l <=? Stream.count st' + 1)) eqn:LR.
      * injection H as <- _; simpl; lia.
      * destruct (Stream.scan (Some l) (Stream.with_count st' (Stream.count st' + 1)) s)
          as [evs' e'] eqn:S2.
        injection H as <- _.
        assert (Hn : Stream.count st' + 1 < l).
        { destruct (l =? 0) eqn:E0; [apply Z.eqb_eq in E0; lia |].
          simpl in LR; apply Z.leb_gt in LR; exact LR. }
        specialize (IH (Stream.with_count st' (Stream.count st' + 1)) _ _ Hl Hn S2).
        cbn [Stream.count Stream.with_count] in IH.
        change (Stream.yields (Stream.Yield obj :: evs')) with (obj :: Stream.yields evs').
        cbn [List.length]; lia.
    + destruct x; try (injection H as <- _; simpl; lia).
      destruct (Stream.scan (Some l) st' s) as [evs' e'] eqn:S2.
      injection H as <- _.
      specialize (IH st' _ _ Hl ltac:(lia) S2).
      change (Stream.yields (Stream.Warn :: evs')) with (Stream.yields evs'); lia.
Qed.

Lemma stream_yields_bound text l evs e :
  0 < l -> Stream.stream_json_array text (Some l) = (evs, e) ->
  Z.of_nat (List.length (Stream.yields evs)) <= l.
Proof.
  unfold Stream.stream_json_array; destruct (Stream.readline text) as [line rest].
  destruct (startswith _ _); intros Hl H.
  - pose proof (scan_yields_bound l rest Stream.init evs e Hl Hl H); simpl in *; lia.
  - injection H as <- _; simpl; lia.
Qed.

(** Values inside the skip window are never passed to [process_issue]. *)
Lemma main_loop_all_skipped low pr skip : forall evs sk ic buf err,
  Z.of_nat (List.length (Stream.yields evs)) <= skip - sk ->
  exists err', main_loop low pr skip sk ic evs buf err = (buf, ic, err', None).
Proof.
  induction evs as [| ev evs IH]; intros sk ic buf err H; simpl.
  - eexists; reflexivity.
  - destruct ev as [j |].
    + change (Stream.yields (Stream.Yield j :: evs)) with (j :: Stream.yields evs) in H.
      cbn [List.length] in H.
      replace (sk <? skip) with true by (symmetry; apply Z.ltb_lt; lia).
      apply IH; lia.
    + apply IH; exact H.
Qed.

(** C1: when [0 < limit <= skip], [main] processes no issue at all: the
    elements inside the skip window count toward the limit, so the
    generator stops before any element past the window. The output is the
    header alone and the reported total is 0. *)
Theorem limit_counts_skipped_elements low pr f text l skip :
  0 < l <= skip ->
  output (main low pr f text (Some l) skip) = header f
  /\ (raised (main low pr f text (Some l) skip) = None ->
      exists ds, diagnostics (main low pr f text (Some l) skip) = ds ++ [DTotal 0]).
Proof.
  intros Hl; unfold main.
  destruct (Stream.stream_json_array text (Some l)) as [evs sexn] eqn:S.
  pose proof (stream_yields_bound _ _ _ _ (proj1 Hl) S) as B.
  destruct (main_loop_all_skipped low pr skip evs 0 0 [] [] ltac:(lia)) as [err' ->].
  destruct sexn as [x |]; cbn.
  - split; [reflexivity | discriminate].
  - rewrite app_nil_r; split; [reflexivity | intros _; eexists; reflexivity].
Qed.

(** The three-record array of the specification, one element per line. *)
Lemma limit_counts_skipped_elements_witness :
  let text := lit "[" ++ [10%N] ++ lit "{" ++ [dq] ++ lit "id" ++ [dq] ++ lit ": 1}," ++ [10%N]
              ++ lit "{" ++ [dq] ++ lit "id" ++ [dq] ++ lit ": 2}," ++ [10%N]
              ++ lit "{" ++ [dq] ++ lit "id" ++ [dq] ++ lit ": 3}" ++ [10%N] ++ lit "]" ++ [10%N] in
  output (main ascii_lower ascii_isprintable (lit "comics.json") text (Some 1) 1)
    = header (lit "comics.json")
  /\ (raised (main ascii_lower ascii_isprintable (lit "comics.json") text (Some 1) 1) = None ->
      exists ds, diagnostics (main ascii_lower ascii_isprintable (lit "comics.json") text (Some 1) 1)
                 = ds ++ [DTotal 0]).
Proof. intros text; apply limit_counts_skipped_elements; lia. Defined.

End Driver.

Module StreamProps.

Lemma lstrip_all p w s : Forall (fun x => p x = true) w -> lstrip_by p (w ++ s) = lstrip_by p s.
Proof. induction 1 as [| x w Hx _ IH]; simpl; [reflexivity | rewrite Hx; exact IH]. Qed.

Lemma py_strip_ws w s :
  Forall (fun x => py_isspace x = true) w -> py_strip (w ++ s) = py_strip s.
Proof. intros H; unfold py_strip; rewrite lstrip_all by exact H; reflexivity. Qed.

Ltac proj_simpl := cbn [Stream.buffer Stream.brace_depth Stream.in_string
                        Stream.escape_next Stream.count].

Lemma step_ws w st x :
  Forall (fun x => py_isspace x = true) w ->
  Stream.step (prepend w st) x =
  match Stream.step st x with
  | (st', None) => (prepend w st', None)
  | (st', Some o) => (st', Some o)
  end.
Proof.
  intros Hw; destruct st as [b d i e n]; unfold Stream.step, prepend.
  proj_simpl.
  destruct e; proj_simpl; [rewrite app_assoc; reflexivity |].
  destruct ((x =? bs)%N && i); proj_simpl; [rewrite app_assoc; reflexivity |].
  rewrite <- app_assoc, (py_strip_ws w (b ++ [x]) Hw).
  destruct (_ && _ && _); proj_simpl; [reflexivity | rewrite app_assoc; reflexivity].
Qed.

Lemma step_complete st x st' o :
  Stream.step st x = (st', Some o) -> st' = clean (Stream.count st).
Proof.
  destruct st as [b d i e n]; unfold Stream.step; proj_simpl.
  destruct e; proj_simpl; [discriminate |].
  destruct ((x =? bs)%N && i); proj_simpl; [discriminate |].
  set (ins := if (x =? dq)%N then negb i else i).
  set (depth := if ins then d else if (x =? ch "{")%N then d + 1
                else if (x =? ch "}")%N then d - 1 else d).
  destruct ((depth =? 0) && negb (is_nil (py_strip (b ++ [x]))) && negb ins) eqn:C;
    [| discriminate].
  intros H; injection H as <- _.
  apply andb_prop in C as [C1 C3]; apply andb_prop in C1 as [C1 _].
  apply Z.eqb_eq in C1; apply negb_true_iff in C3.
  unfold clean; rewrite C1, C3; reflexivity.
Qed.

Lemma pystr_eqb_eq a b : pystr_eqb a b = true -> a = b.
Proof.
  revert b; induction a as [| x a IH]; intros [| y b]; simpl; try discriminate; [reflexivity |].
  intros H; apply andb_prop in H as [H1 H2]; apply N.eqb_eq in H1; subst; f_equal; auto.
Qed.

(** Reading one segment from a state whose buffer holds only whitespace. *)
Lemma seg_scan limit s : forall w st t r,
  Forall (fun x => py_isspace x = true) w ->
  seg_from st s t = true ->
  Stream.scan limit (prepend w st) (s ++ r) = after_segment limit (Stream.count st) t r.
Proof.
  induction s as [| x s IH]; intros w st t r Hw H; [discriminate H |].
  simpl in H; cbn [app Stream.scan]; rewrite (step_ws w st x Hw).
  destruct (Stream.step st x) as [st' [o |]] eqn:S.
  - apply andb_prop in H as [H1 H2].
    destruct s; [| discriminate H1].
    apply pystr_eqb_eq in H2; subst o.
    rewrite (step_complete _ _ _ _ S); reflexivity.
  - rewrite (IH w st' t r Hw H).
    pose proof (Driver.step_count st x) as Sc; rewrite S in Sc; simpl in Sc; rewrite Sc; reflexivity.
Qed.

Lemma seg_from_count s : forall st n t,
  seg_from (Stream.with_count st n) s t = seg_from st s t.
Proof.
  induction s as [| x s IH]; intros st n t; [reflexivity |].
  simpl.
  assert (E : Stream.step (Stream.with_count st n) x =
              let '(st', o) := Stream.step st x in (Stream.with_count st' n, o)).
  { destruct st as [b d i e c]; unfold Stream.step; cbn.
    destruct e; [reflexivity |].
    destruct ((x =? bs)%N && i); [reflexivity |].
    destruct (_ && _ && _); reflexivity. }
  rewrite E; destruct (Stream.step st x) as [st' [o |]]; [reflexivity | apply IH].
Qed.

Lemma sep_scan limit n r :
  Stream.scan limit (clean n) (lit "," ++ [10%N] ++ r)
  = Stream.scan limit (prepend [10%N] (clean n)) r.
Proof. reflexivity. Qed.

Lemma close_scan limit n : Stream.scan limit (clean n) ([10%N] ++ lit "]" ++ [10%N]) = ([], None).
Proof. reflexivity. Qed.

Lemma segment_parts t : segment t = true ->
  (forall n, seg_from (clean n) t t = true) /\ is_nil t = false
  /\ pystr_eqb t Stream.rbracket = false.
Proof.
  unfold segment; intros H; apply andb_prop in H as [H1 H2].
  split; [| split].
  - intros n; change (clean n) with (Stream.with_count (clean 0) n); rewrite seg_from_count; exact H1.
  - destruct t; [discriminate H1 | reflexivity].
  - apply negb_true_iff; exact H2.
Qed.

Lemma ws_nl : Forall (fun x => py_isspace x = true) [10%N].
Proof. repeat constructor. Qed.

(** C4: in an array written one element per line, a middle element that
    does not decode but is still one segment for the scanner (its braces
    balance) costs exactly one warning: the elements before and after it are
    yielded and the stream ends normally. This needs no limit reached at the
    first value. *)
Theorem broken_middle_element a b c va vc limit :
  segment a = true -> segment b = true -> segment c = true ->
  Json.loads a = Ok va -> Json.loads b = Err JSONDecodeError -> Json.loads c = Ok vc ->
  Stream.limit_reached limit 1 = false ->
  Stream.stream_json_array
    (lit "[" ++ [10%N] ++ a ++ lit "," ++ [10%N] ++ b ++ lit "," ++ [10%N] ++ c
     ++ [10%N] ++ lit "]" ++ [10%N]) limit
  = ([Stream.Yield va; Stream.Warn; Stream.Yield vc], None).
Proof.
  intros Sa Sb Sc La Lb Lc Lim.
  apply segment_parts in Sa as (Sa & Na & Ra).
  apply segment_parts in Sb as (Sb & Nb & Rb).
  apply segment_parts in Sc as (Sc & Nc & Rc).
  unfold Stream.stream_json_array.
  set (rest := a ++ lit "," ++ [10%N] ++ b ++ lit "," ++ [10%N] ++ c
               ++ [10%N] ++ lit "]" ++ [10%N]).
  change (Stream.readline (lit "[" ++ [10%N] ++ rest)) with ([91%N; 10%N], rest).
  cbv beta iota zeta.
  change (startswith (py_strip [91%N; 10%N]) [91%N]) with true; cbv iota.
  change Stream.init with (prepend [] (clean 0)); unfold rest.
  rewrite (seg_scan limit a [] (clean 0) a _ (Forall_nil _) (Sa 0)).
  unfold after_segment at 1; rewrite Na, Ra, La; change (Stream.count (clean 0) + 1) with 1.
  rewrite Lim, sep_scan.
  rewrite (seg_scan limit b [10%N] (clean 1) b _ ws_nl (Sb 1)).
  unfold after_segment at 1; rewrite Nb, Rb, Lb; change (Stream.count (clean 1)) with 1.
  rewrite sep_scan.
  rewrite (seg_scan limit c [10%N] (clean 1) c _ ws_nl (Sc 1)).
  unfold after_segment; rewrite Nc, Rc, Lc; change (Stream.count (clean 1) + 1) with 2.
  rewrite close_scan.
  destruct (Stream.limit_reached limit 2); reflexivity.
Qed.

Lemma broken_middle_element_witness :
  Stream.stream_json_array
    (lit "[" ++ [10%N] ++ id_obj "1" ++ lit "," ++ [10%N] ++ id_obj "" ++ lit "," ++ [10%N]
     ++ id_obj "3" ++ [10%N] ++ lit "]" ++ [10%N]) None
  = ([Stream.Yield (id_val 1); Stream.Warn; Stream.Yield (id_val 3)], None).
Proof.
  apply (broken_middle_element (id_obj "1") (id_obj "") (id_obj "3") (id_val 1) (id_val 3) None);
    vm_compute; reflexivity.
Defined.

(** C4 counterexample: a broken middle element [{"id": 2,] whose braces do
    not balance swallows the next element: one value is yielded and no
    warning is printed. *)
Lemma unbalanced_middle_element :
  let b := lit "{" ++ [dq] ++ lit "id" ++ [dq] ++ lit ": 2," in
  Json.loads (id_obj "1") = Ok (id_val 1)
  /\ Json.loads b = Err JSONDecodeError
  /\ Json.loads (id_obj "3") = Ok (id_val 3)
  /\ Stream.stream_json_array
       (lit "[" ++ [10%N] ++ id_obj "1" ++ lit "," ++ [10%N] ++ b ++ [10%N]
        ++ id_obj "3" ++ [10%N] ++ lit "]" ++ [10%N]) None
     = ([Stream.Yield (id_val 1)], None).
Proof. vm_compute; repeat split; reflexivity. Qed.

Lemma readline_no_nl line rest :
  existsb (N.eqb 10) line = false ->
  Stream.readline (line ++ [10%N] ++ rest) = (line ++ [10%N], rest).
Proof.
  change ([10%N] ++ rest) with (10%N :: rest) in *.
  induction line as [| c line IH]; cbn [app existsb Stream.readline]; [reflexivity |].
  intros H; apply orb_false_iff in H as [H1 H2]; rewrite N.eqb_sym in H1.
  rewrite H1, (IH H2); reflexivity.
Qed.

Lemma readline_none text : existsb (N.eqb 10) text = false -> Stream.readline text = (text, []).
Proof.
  induction text as [| c text IH]; cbn [existsb Stream.readline]; [reflexivity |].
  intros H; apply orb_false_iff in H as [H1 H2]; rewrite N.eqb_sym in H1.
  rewrite H1, (IH H2); reflexivity.
Qed.

Lemma rstrip_nl s : rstrip_by py_isspace (s ++ [10%N]) = rstrip_by py_isspace s.
Proof. unfold rstrip_by; rewrite rev_app_distr; reflexivity. Qed.

Lemma py_strip_nl line : py_strip (line ++ [10%N]) = py_strip line.
Proof.
  unfold py_strip; induction line as [| c line IH]; [reflexivity |].
  simpl; destruct (py_isspace c); [exact IH |].
  change (c :: line ++ [10%N]) with ((c :: line) ++ [10%N]); apply rstrip_nl.
Qed.

(** C9: the first line is consumed whole by the opening-bracket check: the
    stream over [line ++ "\n" ++ rest] is the scan of [rest] alone, so
    elements written on the first line after the [\[] are never seen. *)
Theorem first_line_discarded line rest limit :
  existsb (N.eqb 10) line = false -> startswith (py_strip line) [91%N] = true ->
  Stream.stream_json_array (line ++ [10%N] ++ rest) limit = Stream.scan limit Stream.init rest.
Proof.
  intros Hn Hb; unfold Stream.stream_json_array.
  rewrite (readline_no_nl line rest Hn), py_strip_nl, Hb; reflexivity.
Qed.

Lemma first_line_discarded_witness :
  Stream.stream_json_array
    (lit "[" ++ id_obj "1" ++ lit "," ++ [10%N] ++ id_obj "2" ++ [10%N] ++ lit "]" ++ [10%N]) None
  = Stream.scan None Stream.init (id_obj "2" ++ [10%N] ++ lit "]" ++ [10%N]).
Proof.
  apply (first_line_discarded (lit "[" ++ id_obj "1" ++ lit ",")
           (id_obj "2" ++ [10%N] ++ lit "]" ++ [10%N]) None); vm_compute; reflexivity.
Defined.

(** C3: an array serialized on one line (as [json.dumps] writes it) yields
    nothing, whatever its elements. *)
Theorem one_line_array_yields_nothing text limit :
  existsb (N.eqb 10) text = false ->
  Stream.yields (fst (Stream.stream_json_array text limit)) = [].
Proof.
  intros Hn; unfold Stream.stream_json_array; rewrite (readline_none text Hn).
  destruct (startswith _ _); reflexivity.
Qed.

Lemma one_line_array_yields_nothing_witness :
  Stream.yields (fst (Stream.stream_json_array
    (lit "[" ++ id_obj "1" ++ lit ", " ++ id_obj "2" ++ lit "]") None)) = [].
Proof. apply one_line_array_yields_nothing; vm_compute; reflexivity. Defined.

End StreamProps.

Module StreamExtra.

Import StreamProps.

Lemma yields_yield j (p : list Stream.event * option exn) :
  Stream.yields (fst (let '(evs, e) := p in (Stream.Yield j :: evs, e)))
  = j :: Stream.yields (fst p).
Proof. destruct p; reflexivity. Qed.

Lemma yields_warn (p : list Stream.event * option exn) :
  Stream.yields (fst (let '(evs, e) := p in (Stream.Warn :: evs, e))) = Stream.yields (fst p).
Proof. destruct p; reflexivity. Qed.

(** A run under [limit] yields the values of the unlimited run until the
    limit is reached. *)
Lemma scan_limited limit s : forall st,
  Stream.yields (fst (Stream.scan limit st s))
  = limited limit (Stream.count st) (Stream.yields (fst (Stream.scan None st s))).
Proof.
  induction s as [| c s IH]; intros st; [reflexivity |].
  cbn [Stream.scan].
  pose proof (Driver.step_count st c) as Sc.
  destruct (Stream.step st c) as [st' [o |]]; cbn [fst] in Sc; [| rewrite IH, Sc; reflexivity].
  destruct (negb (is_nil o) && negb (pystr_eqb o Stream.rbracket)); [| rewrite IH, Sc; reflexivity].
  destruct (Json.loads o) as [obj | x].
  - cbn [Stream.limit_reached]; rewrite yields_yield.
    cbn [limited]; rewrite Sc.
    destruct (Stream.limit_reached limit (Stream.count st + 1)); [reflexivity |].
    rewrite yields_yield, IH; reflexivity.
  - destruct x; try reflexivity.
    rewrite !yields_warn, IH, Sc; reflexivity.
Qed.

Lemma limited_none n vs : limited None n vs = vs.
Proof. revert n; induction vs as [| v vs IH]; intros n; simpl; [| rewrite IH]; reflexivity. Qed.

Lemma limited_zero n vs : limited (Some 0) n vs = vs.
Proof. revert n; induction vs as [| v vs IH]; intros n; simpl; [| rewrite IH]; reflexivity. Qed.

Lemma limited_pos l vs : forall n, 0 <= n < l ->
  limited (Some l) n vs = firstn (Z.to_nat (l - n)) vs.
Proof.
  induction vs as [| v vs IH]; intros n Hn; [destruct (Z.to_nat _); reflexivity |].
  cbn [limited Stream.limit_reached].
  replace (l =? 0) with false by (symmetry; apply Z.eqb_neq; lia).
  destruct (l <=? n + 1) eqn:E; cbn [negb andb].
  - apply Z.leb_le in E; replace (Z.to_nat (l - n)) with 1%nat by lia; reflexivity.
  - apply Z.leb_gt in E; rewrite (IH (n + 1)) by lia.
    replace (Z.to_nat (l - n)) with (S (Z.to_nat (l - (n + 1)))) by lia; reflexivity.
Qed.

Lemma limited_take limit vs : limited limit 0 vs = take_limit limit vs.
Proof.
  destruct limit as [l |]; [| apply limited_none].
  unfold take_limit; destruct (Z.eqb_spec l 0) as [-> | H0]; [apply limited_zero |].
  destruct (Z_lt_le_dec 0 l) as [Hl | Hl].
  - rewrite limited_pos by lia; f_equal; lia.
  - replace (Z.to_nat (Z.max 1 l)) with 1%nat by lia.
    destruct vs as [| v vs]; [reflexivity |]; cbn [limited Stream.limit_reached].
    replace (negb (l =? 0) && (l <=? 0 + 1)) with true
      by (symmetry; apply andb_true_iff; split; [apply negb_true_iff, Z.eqb_neq; exact H0 | apply Z.leb_le; lia]).
    reflexivity.
Qed.

Lemma take_limit_nil limit : take_limit limit [] = [].
Proof. destruct limit as [l |]; [unfold take_limit; destruct (l =? 0); [| rewrite firstn_nil] |]; reflexivity. Qed.

(** How [--limit] acts on the stream: it keeps a prefix of the values the
    unlimited stream yields, [take_limit limit] of them. A limit of [0] is no
    limit, a negative limit keeps one value, and decode warnings do not count
    toward the limit. *)
Theorem stream_limit_prefix text limit :
  Stream.yields (fst (Stream.stream_json_array text limit))
  = take_limit limit (Stream.yields (fst (Stream.stream_json_array text None))).
Proof.
  unfold Stream.stream_json_array; destruct (Stream.readline text) as [line rest].
  destruct (startswith _ _).
  - rewrite scan_limited; apply limited_take.
  - symmetry; apply take_limit_nil.
Qed.

Lemma scan_limit_zero s : forall st, Stream.scan (Some 0) st s = Stream.scan None st s.
Proof.
  induction s as [| c s IH]; intros st; [reflexivity |].
  cbn [Stream.scan Stream.limit_reached Z.eqb negb andb].
  destruct (Stream.step st c) as [st' o]; rewrite !IH; reflexivity.
Qed.

(** [--limit 0] is the same as no [--limit]: [main] writes the same text,
    prints the same diagnostics and ends the same way. *)
Theorem main_limit_zero_unlimited low pr f text skip :
  main low pr f text (Some 0) skip = main low pr f text None skip.
Proof.
  unfold main, Stream.stream_json_array; destruct (Stream.readline text) as [line rest].
  destruct (startswith _ _); [rewrite scan_limit_zero |]; reflexivity.
Qed.

Lemma scan_no_decode_error limit s : forall st, snd (Stream.scan limit st s) <> Some JSONDecodeError.
Proof.
  induction s as [| c s IH]; intros st; [discriminate |].
  cbn [Stream.scan].
  destruct (Stream.step st c) as [st' [o |]]; [| apply IH].
  destruct (negb (is_nil o) && negb (pystr_eqb o Stream.rbracket)); [| apply IH].
  destruct (Json.loads o) as [obj | x].
  - destruct (Stream.limit_reached limit _); [discriminate |].
    specialize (IH (Stream.with_count st' (Stream.count st' + 1))).
    destruct (Stream.scan limit _ s); exact IH.
  - destruct x; try discriminate.
    specialize (IH st'); destruct (Stream.scan limit st' s); exact IH.
Qed.

(** A malformed element never ends the stream: whatever the input and the
    limit, the generator never ends by raising [JSONDecodeError]. *)
Theorem stream_never_raises_decode_error text limit :
  snd (Stream.stream_json_array text limit) <> Some JSONDecodeError.
Proof.
  unfold Stream.stream_json_array; destruct (Stream.readline text) as [line rest].
  destruct (startswith _ _); [apply scan_no_decode_error | discriminate].
Qed.

Lemma ws_of w : w = [] \/ w = [10%N] -> Forall (fun x => py_isspace x = true) w.
Proof. intros [-> | ->]; repeat constructor. Qed.

(** The rest of an array written one element per line, read from a state
    between two elements after [n] values. *)
Lemma body_scan limit es vs :
  Forall2 (fun e v => Json.loads e = Ok v) es vs -> Forall (fun e => segment e = true) es ->
  forall w n, w = [] \/ w = [10%N] ->
  Stream.scan limit (prepend w (clean n)) (array_body es ++ lit "]" ++ [10%N])
  = (map Stream.Yield (limited limit n vs), None).
Proof.
  induction 1 as [| e v es vs Hl H2 IH]; intros Hs w n Hw.
  - destruct Hw as [-> | ->]; reflexivity.
  - inversion Hs as [| ? ? Se Ses]; subst.
    apply segment_parts in Se as (Sa & Na & Ra).
    destruct es as [| e2 es2].
    + inversion H2; subst.
      change (array_body [e]) with (e ++ [10%N]); rewrite <- app_assoc.
      rewrite (seg_scan limit e w (clean n) e _ (ws_of w Hw) (Sa n)).
      unfold after_segment; rewrite Na, Ra, Hl; change (Stream.count (clean n)) with n.
      cbn [negb andb limited map].
      destruct (Stream.limit_reached limit (n + 1)); [reflexivity |].
      rewrite close_scan; reflexivity.
    + change (array_body (e :: e2 :: es2)) with (e ++ lit "," ++ [10%N] ++ array_body (e2 :: es2)).
      rewrite <- !app_assoc.
      rewrite (seg_scan limit e w (clean n) e _ (ws_of w Hw) (Sa n)).
      unfold after_segment; rewrite Na, Ra, Hl; change (Stream.count (clean n)) with n.
      cbn [negb andb limited map].
      destruct (Stream.limit_reached limit (n + 1)); [reflexivity |].
      rewrite sep_scan, (IH Ses [10%N] (n + 1) (or_intror eq_refl)); reflexivity.
Qed.

(** Round trip for an array written one element per line: when each element
    is one scanner segment (its braces balance outside strings, it starts and
    ends without whitespace) and decodes, the stream yields the decoded
    elements in order, the first [limit] of them under a limit (see
    [take_limit]), with no warning and no exception. *)
Theorem array_per_line_round_trip es vs limit :
  Forall (fun e => segment e = true) es ->
  Forall2 (fun e v => Json.loads e = Ok v) es vs ->
  Stream.stream_json_array (array_text es) limit
  = (map Stream.Yield (take_limit limit vs), None).
Proof.
  intros Hs Hl; unfold Stream.stream_json_array, array_text.
  set (rest := array_body es ++ lit "]" ++ [10%N]).
  change (Stream.readline (lit "[" ++ [10%N] ++ rest)) with ([91%N; 10%N], rest).
  cbv beta iota zeta.
  change (startswith (py_strip [91%N; 10%N]) [91%N]) with true; cbv iota.
  change Stream.init with (prepend [] (clean 0)); unfold rest.
  rewrite (body_scan limit es vs Hl Hs [] 0 (or_introl eq_refl)), limited_take; reflexivity.
Qed.

Lemma array_per_line_round_trip_witness :
  Stream.stream_json_array (array_text [id_obj "1"; id_obj "2"; id_obj "3"]) (Some 2)
  = (map Stream.Yield (take_limit (Some 2) [id_val 1; id_val 2; id_val 3]), None).
Proof.
  apply (array_per_line_round_trip [id_obj "1"; id_obj "2"; id_obj "3"]
           [id_val 1; id_val 2; id_val 3] (Some 2));
    repeat (constructor; [vm_compute; reflexivity |]); constructor.
Defined.

End StreamExtra.

Module DriverExtra.

Lemma yields_cons j r : Stream.yields (Stream.Yield j :: r) = j :: Stream.yields r.
Proof. reflexivity. Qed.

Lemma yields_warn_cons r : Stream.yields (Stream.Warn :: r) = Stream.yields r.
Proof. reflexivity. Qed.

(** The loop's final [issue_count]: the values past the skip window. *)
Lemma loop_count low pr skip evs : forall sk c buf err b' c' err',
  main_loop low pr skip sk c evs buf err = (b', c', err', None) ->
  c' = c + Z.max 0 (Z.of_nat (List.length (Stream.yields evs)) - Z.max 0 (skip - sk)).
Proof.
  induction evs as [| [j |] evs IH]; intros sk c buf err b' c' err' H; cbn [main_loop] in H.
  - injection H as _ <- _; cbn; lia.
  - rewrite yields_cons; cbn [List.length]; rewrite Nat2Z.inj_succ.
    destruct (sk <? skip) eqn:Sk.
    + apply Z.ltb_lt in Sk; apply IH in H; lia.
    + apply Z.ltb_ge in Sk.
      destruct (process_issue low pr j) as [lines | e]; [| discriminate H].
      apply IH in H; lia.
  - rewrite yields_warn_cons; exact (IH _ _ _ _ _ _ _ H).
Qed.

(** The reported total: when [main] ends normally, its last diagnostic is
    ["Total issues processed: n"] where [n] is the number of values the
    stream yields beyond the first [skip] (a negative [skip] skips
    nothing). *)
Theorem main_total_counts_unskipped low pr f text limit skip :
  raised (main low pr f text limit skip) = None ->
  exists ds, diagnostics (main low pr f text limit skip)
             = ds ++ [DTotal (Z.max 0 (Z.of_nat (List.length
                 (Stream.yields (fst (Stream.stream_json_array text limit))))
                 - Z.max 0 skip))].
Proof.
  unfold main.
  destruct (Stream.stream_json_array text limit) as [evs sexn]; cbn [fst].
  destruct (main_loop low pr skip 0 0 evs [] []) as [[[buf ic] err] lexn] eqn:L.
  destruct lexn as [x |]; [discriminate |].
  destruct sexn as [x |]; [discriminate |].
  intros _; exists err; cbn [diagnostics].
  apply loop_count in L; rewrite L, Z.sub_0_r; reflexivity.
Qed.

Lemma main_total_counts_unskipped_witness :
  raised (main ascii_lower ascii_isprintable (lit "comics.json")
            (array_text [id_obj "1"; id_obj "2"; id_obj "3"]) None 1) = None /\
  exists ds, diagnostics (main ascii_lower ascii_isprintable (lit "comics.json")
                            (array_text [id_obj "1"; id_obj "2"; id_obj "3"]) None 1)
             = ds ++ [DTotal (Z.max 0 (Z.of_nat (List.length
                 (Stream.yields (fst (Stream.stream_json_array
                    (array_text [id_obj "1"; id_obj "2"; id_obj "3"]) None))))
                 - Z.max 0 1))].
Proof.
  assert (R : raised (main ascii_lower ascii_isprintable (lit "comics.json")
            (array_text [id_obj "1"; id_obj "2"; id_obj "3"]) None 1) = None)
    by (vm_compute; reflexivity).
  split; [exact R | exact (main_total_counts_unskipped _ _ _ _ _ _ R)].
Defined.

(** Every value past the skip window of a loop that ends normally went
    through [process_issue] without an exception. *)
Lemma loop_ok low pr skip evs : forall sk c buf err b' c' err',
  main_loop low pr skip sk c evs buf err = (b', c', err', None) ->
  forall y, In y (skipn (Z.to_nat (skip - sk)) (Stream.yields evs)) ->
  exists lines, process_issue low pr y = Ok lines.
Proof.
  induction evs as [| [j |] evs IH]; intros sk c buf err b' c' err' H y Hy; cbn [main_loop] in H.
  - rewrite skipn_nil in Hy; destruct Hy.
  - rewrite yields_cons in Hy.
    destruct (sk <? skip) eqn:Sk.
    + apply Z.ltb_lt in Sk.
      replace (Z.to_nat (skip - sk)) with (S (Z.to_nat (skip - (sk + 1)))) in Hy by lia.
      exact (IH _ _ _ _ _ _ _ H y Hy).
    + apply Z.ltb_ge in Sk.
      replace (Z.to_nat (skip - sk)) with 0%nat in Hy by lia.
      destruct (process_issue low pr j) as [lines | e] eqn:P; [| discriminate H].
      destruct Hy as [<- | Hy]; [eauto |].
      apply (IH _ _ _ _ _ _ _ H y).
      replace (Z.to_nat (skip - sk)) with 0%nat by lia; exact Hy.
  - rewrite yields_warn_cons in Hy; exact (IH _ _ _ _ _ _ _ H y Hy).
Qed.

(** All or nothing: if an issue past the skip window makes [process_issue]
    raise, [main] ends with an exception and its output is the header alone,
    with none of the blocks of the issues processed before it. *)
Theorem main_aborts_on_failing_issue low pr f text limit skip issue e :
  In issue (skipn (Z.to_nat skip) (Stream.yields (fst (Stream.stream_json_array text limit)))) ->
  process_issue low pr issue = Err e ->
  raised (main low pr f text limit skip) <> None
  /\ output (main low pr f text limit skip) = header f.
Proof.
  intros Hin He; unfold main in *.
  destruct (Stream.stream_json_array text limit) as [evs sexn]; cbn [fst] in Hin.
  destruct (main_loop low pr skip 0 0 evs [] []) as [[[buf ic] err] lexn] eqn:L.
  destruct lexn as [x |]; [split; [discriminate | reflexivity] |].
  exfalso.
  rewrite <- (Z.sub_0_r skip) in Hin.
  destruct (loop_ok _ _ _ _ _ _ _ _ _ _ _ L issue Hin) as [lines Hl].
  congruence.
Qed.

Lemma main_aborts_on_failing_issue_witness :
  let text := array_text [id_obj "1"; lit "{" ++ [dq] ++ lit "id" ++ [dq] ++ lit ": 2, "
                           ++ [dq] ++ lit "series" ++ [dq] ++ lit ": null}"] in
  raised (main ascii_lower ascii_isprintable (lit "comics.json") text None 0) <> None
  /\ output (main ascii_lower ascii_isprintable (lit "comics.json") text None 0)
     = header (lit "comics.json").
Proof.
  intros text.
  apply (main_aborts_on_failing_issue _ _ _ _ _ _
           (JDict [(lit "id", JInt 2); (lit "series", JNull)]) AttributeError).
  - vm_compute; right; left; reflexivity.
  - vm_compute; reflexivity.
Defined.

End DriverExtra.

Module IssueExtra.

Lemma bind_errs {A B} (m : res A) (f : A -> res B) :
  (forall a, m = Ok a -> exists e, f a = Err e) -> exists e, bind m f = Err e.
Proof. destruct m as [a | e]; cbn [bind]; [intros H; exact (H a eq_refl) | eauto]. Qed.

Lemma bind_errs_l {A B} (m : res A) (f : A -> res B) :
  (exists e, m = Err e) -> exists e, bind m f = Err e.
Proof. intros [e ->]; exists e; reflexivity. Qed.

Lemma get_not_dict v k d :
  match v with JDict _ => False | _ => True end -> get v k d = Err AttributeError.
Proof. destruct v; cbn; tauto. Qed.

Lemma lower_v_not_str low v :
  match v with JStr _ => False | _ => True end -> lower_v low v = Err AttributeError.
Proof. destruct v; cbn; tauto. Qed.

(** [infer_format_class] reads [issue.get("series", {}).get("series_type",
    {}).get("name", "").lower()]: a ["series"] that is present but not a dict
    (typically [null]), a ["series_type"] present but not a dict, or a
    ["name"] there present but not a string raises [AttributeError]. The
    guard [if "series" in issue and issue["series"]] of [process_issue] and
    [generate_issue_triples] does not protect this call, so [process_issue]
    raises on such an issue (and [main] then aborts). *)
Theorem malformed_series_type_aborts_issue low pr kv :
  (exists v, dict_lookup (lit "series") kv = Some v
             /\ match v with JDict _ => False | _ => True end)
  \/ (exists skv v, dict_lookup (lit "series") kv = Some (JDict skv)
        /\ dict_lookup (lit "series_type") skv = Some v
        /\ match v with JDict _ => False | _ => True end)
  \/ (exists skv tkv v, dict_lookup (lit "series") kv = Some (JDict skv)
        /\ dict_lookup (lit "series_type") skv = Some (JDict tkv)
        /\ dict_lookup (lit "name") tkv = Some v
        /\ match v with JStr _ => False | _ => True end) ->
  infer_format_class low (JDict kv) = Err AttributeError
  /\ exists e, process_issue low pr (JDict kv) = Err e.
Proof.
  intros Hs.
  assert (INF : infer_format_class low (JDict kv) = Err AttributeError).
  { unfold infer_format_class; rewrite Generators.get_dict.
    destruct Hs as [(v & L & Nd) | [(skv & v & L & L2 & Nd) | (skv & tkv & v & L & L2 & L3 & Ns)]];
      rewrite L; cbn [bind].
    - rewrite get_not_dict by exact Nd; reflexivity.
    - rewrite Generators.get_dict, L2; cbn [bind].
      rewrite get_not_dict by exact Nd; reflexivity.
    - rewrite Generators.get_dict, L2; cbn [bind].
      rewrite Generators.get_dict, L3; cbn [bind].
      rewrite lower_v_not_str by exact Ns; reflexivity. }
  split; [exact INF |].
  unfold process_issue.
  do 4 (apply bind_errs; intros ? _).
  apply bind_errs_l.
  unfold generate_issue_triples; cbv zeta.
  repeat first [ apply bind_errs_l; exists AttributeError; exact INF
               | apply bind_errs; intros ? _ ].
Qed.

Lemma malformed_series_type_aborts_issue_witness :
  infer_format_class ascii_lower (JDict [(lit "id", JInt 7); (lit "series", JNull)])
    = Err AttributeError
  /\ exists e, process_issue ascii_lower ascii_isprintable
                 (JDict [(lit "id", JInt 7); (lit "series", JNull)]) = Err e.
Proof.
  apply malformed_series_type_aborts_issue; left; exists JNull; split; [reflexivity | exact I].
Defined.

End IssueExtra.

Module Literals.

Lemma replace1_app c r a b : replace1 c r (a ++ b) = replace1 c r a ++ replace1 c r b.
Proof. unfold replace1; apply flat_map_app. Qed.

Lemma esc4_cons x s : esc4 (x :: s) = esc4 [x] ++ esc4 s.
Proof.
  unfold esc4; change (x :: s) with ([x] ++ s); rewrite !replace1_app; reflexivity.
Qed.

Lemma esc4_char x :
  esc4 [x] = if (x =? bs)%N then [bs; bs] else if (x =? dq)%N then [bs; dq]
             else if (x =? 10)%N then [bs; ch "n"] else if (x =? 13)%N then [bs; ch "r"]
             else [x].
Proof.
  destruct (N.eqb_spec x bs) as [-> | H1]; [reflexivity |].
  destruct (N.eqb_spec x dq) as [-> | H2]; [reflexivity |].
  destruct (N.eqb_spec x 10) as [-> | H3]; [reflexivity |].
  destruct (N.eqb_spec x 13) as [-> | H4]; [reflexivity |].
  unfold esc4, replace1; cbn [flat_map app].
  apply N.eqb_neq in H1, H2, H3, H4; rewrite H1; cbn [flat_map app].
  rewrite H2; cbn [flat_map app]; rewrite H3; cbn [flat_map app]; rewrite H4; reflexivity.
Qed.

Lemma unescape_esc4 s : sparql_unescape (esc4 s) = Some s.
Proof.
  induction s as [| x s IH]; [reflexivity |].
  rewrite esc4_cons, esc4_char.
  destruct (N.eqb_spec x bs) as [-> | H1]; [cbn; rewrite IH; reflexivity |].
  destruct (N.eqb_spec x dq) as [-> | H2]; [cbn; rewrite IH; reflexivity |].
  destruct (N.eqb_spec x 10) as [-> | H3]; [cbn; rewrite IH; reflexivity |].
  destruct (N.eqb_spec x 13) as [-> | H4]; [cbn; rewrite IH; reflexivity |].
  cbn [app sparql_unescape].
  apply N.eqb_neq in H1, H2, H3, H4; rewrite H1, H2, H3, H4, IH; reflexivity.
Qed.

(** [escape_sparql_string] makes a well-formed literal body that reads back
    to the text: whenever it returns [e], [e] has no raw double quote, line
    feed or carriage return and no dangling backslash, and undoing the
    SPARQL escapes gives [str(v)] back (the empty text for [None]). *)
Theorem escape_sparql_string_round_trip pr v e :
  escape_sparql_string pr v = Ok e ->
  exists s, sparql_unescape e = Some s
            /\ (v = JNull -> s = []) /\ (v <> JNull -> py_str pr v = Ok s).
Proof.
  unfold escape_sparql_string; intros H.
  destruct v as [| b | z | f | t | l | kv];
    [injection H as <-; exists []; split; [reflexivity | split; [auto | congruence]] | ..];
    (destruct (py_str pr _) as [s | x] eqn:P; cbn [bind] in H; [| discriminate H]);
    injection H as <-; exists s;
    (split; [exact (unescape_esc4 s) | split; [discriminate | intros _; first [exact P | reflexivity]]]).
Qed.

Lemma escape_sparql_string_round_trip_witness :
  exists s, sparql_unescape
              (lit "say " ++ [bs; dq] ++ lit "hi" ++ [bs; dq; bs; ch "n"] ++ lit "C:" ++ [bs; bs])
            = Some s
            /\ (JStr (lit "say " ++ [dq] ++ lit "hi" ++ [dq; 10%N] ++ lit "C:" ++ [bs]) = JNull -> s = [])
            /\ (JStr (lit "say " ++ [dq] ++ lit "hi" ++ [dq; 10%N] ++ lit "C:" ++ [bs]) <> JNull ->
                py_str ascii_isprintable
                  (JStr (lit "say " ++ [dq] ++ lit "hi" ++ [dq; 10%N] ++ lit "C:" ++ [bs])) = Ok s).
Proof.
  apply (escape_sparql_string_round_trip ascii_isprintable
           (JStr (lit "say " ++ [dq] ++ lit "hi" ++ [dq; 10%N] ++ lit "C:" ++ [bs]))).
  vm_compute; reflexivity.
Defined.

Lemma always_safe_not_pct b : always_safe b = true -> (b < 128)%N /\ b <> 37%N.
Proof.
  unfold always_safe; cbn [ch N_of_ascii N_of_digits].
  intros H; repeat (apply orb_true_iff in H as [H | H]);
    repeat match goal with
           | H : _ && _ = true |- _ => apply andb_prop in H as [? ?]
           | H : (_ <=? _)%N = true |- _ => apply N.leb_le in H
           | H : (_ =? _)%N = true |- _ => apply N.eqb_eq in H
           end; cbn in *; lia.
Qed.

Lemma hex_val_upper d : (d < 16)%N -> Json.hex_val (hex_upper d) = Some d.
Proof.
  intros H.
  assert (d = 0 \/ d = 1 \/ d = 2 \/ d = 3 \/ d = 4 \/ d = 5 \/ d = 6 \/ d = 7 \/ d = 8
          \/ d = 9 \/ d = 10 \/ d = 11 \/ d = 12 \/ d = 13 \/ d = 14 \/ d = 15)%N as E by lia.
  repeat destruct E as [-> | E]; try reflexivity; subst; reflexivity.
Qed.

Lemma decode_quote_byte b r : (b < 256)%N ->
  percent_decode (quote_byte b ++ r) = option_map (cons b) (percent_decode r).
Proof.
  intros Hb; unfold quote_byte.
  destruct (always_safe b) eqn:S.
  - apply always_safe_not_pct in S as [S1 S2].
    cbn [app percent_decode]; change (ch "%") with 37%N.
    replace (b =? 37)%N with false by (symmetry; apply N.eqb_neq; exact S2).
    replace (b <? 128)%N with true by (symmetry; apply N.ltb_lt; exact S1); reflexivity.
  - cbn [app percent_decode]; rewrite N.eqb_refl.
    rewrite (hex_val_upper (b / 16)) by (apply N.Div0.div_lt_upper_bound; lia).
    rewrite (hex_val_upper (b mod 16)) by (apply N.mod_lt; lia).
    assert (E : (16 * (b / 16) + b mod 16 = b)%N) by (symmetry; apply N.div_mod; lia).
    destruct (percent_decode r); cbn [option_map]; [rewrite E |]; reflexivity.
Qed.

Lemma decode_quote_from_bytes b : Forall (fun x => (x < 256)%N) b ->
  percent_decode (quote_from_bytes b) = Some b.
Proof.
  induction 1 as [| x b Hx _ IH]; [reflexivity |].
  unfold quote_from_bytes in *; cbn [flat_map]; rewrite decode_quote_byte, IH by exact Hx; reflexivity.
Qed.

(** [safe_uri] is lossless apart from its three replacements: percent-decoding
    its result gives back the UTF-8 bytes of the text in which each space,
    slash and colon became an underscore. *)
Theorem safe_uri_percent_decodes s u :
  safe_uri s = Ok u ->
  exists b, utf8_encode (replace_char (ch ":") (ch "_")
              (replace_char (ch "/") (ch "_") (replace_char (ch " ") (ch "_") s))) = Ok b
            /\ percent_decode u = Some b.
Proof.
  unfold safe_uri, quote; intros H.
  destruct (replace_char _ _ _) as [| c t] eqn:R.
  - injection H as <-; exists []; split; reflexivity.
  - destruct (utf8_encode (c :: t)) as [b | e] eqn:U; cbn [bind] in H; [| discriminate H].
    injection H as <-; exists b; split; [reflexivity |].
    exact (decode_quote_from_bytes b (SafeUri.utf8_encode_bytes _ _ U)).
Qed.

Lemma safe_uri_percent_decodes_witness :
  exists b, utf8_encode (replace_char (ch ":") (ch "_")
              (replace_char (ch "/") (ch "_") (replace_char (ch " ") (ch "_")
                 ([ch "A"; 233%N; 8364%N] ++ lit " & x/y:z")))) = Ok b
            /\ percent_decode (lit "A%C3%A9%E2%82%AC_%26_x_y_z") = Some b.
Proof. apply safe_uri_percent_decodes; vm_compute; reflexivity. Defined.

End Literals.

Module GeneratorsExtra.

Import IssueExtra.

Lemma map_res_pairs {A} (f : A -> res (list pystr)) l t :
  (forall x y, f x = Ok y -> List.length y = 2%nat) ->
  map_res f l = Ok t -> List.length (List.concat t) = (2 * List.length l)%nat.
Proof.
  intros Hf; revert t; induction l as [| x l IH]; intros t H; cbn [map_res] in H.
  - apply ok_inj in H; subst t; reflexivity.
  - destruct (f x) as [y | e] eqn:Fx; cbn [bind] in H; [| discriminate H].
    destruct (map_res f l) as [ys | e] eqn:M; cbn [bind] in H; [| discriminate H].
    apply ok_inj in H; subst t; cbn [List.concat List.length].
    rewrite length_app, (Hf _ _ Fx), (IH _ eq_refl); lia.
Qed.

(** A credit gives five triples of its own and two per entry of its
    ["role"] list (absent: none). *)
Theorem credit_triples_per_role pr iid credit idx ts :
  generate_credit_triples pr iid credit idx = Ok ts ->
  exists roles rl, get credit (lit "role") (JList []) = Ok roles /\ iter roles = Ok rl
                   /\ List.length ts = (5 + 2 * List.length rl)%nat.
Proof.
  unfold generate_credit_triples; intros H; Generators.run_binds H.
  do 2 eexists; split; [reflexivity |]; split; [eassumption |].
  apply ok_inj in H; subst ts; rewrite length_app.
  erewrite map_res_pairs; [reflexivity | | eassumption].
  intros x y Hx; cbv beta in Hx; Generators.run_binds Hx; apply ok_inj in Hx; subst y; reflexivity.
Qed.

Lemma credit_triples_per_role_witness :
  exists ts,
    generate_credit_triples ascii_isprintable (JInt 1)
      (JDict [(lit "id", JInt 5); (lit "creator", JStr (lit "Ann"));
              (lit "role", JList [JDict [(lit "name", JStr (lit "Writer"))];
                                  JDict [(lit "name", JStr (lit "Artist"))]])]) 0 = Ok ts
    /\ exists roles rl,
         get (JDict [(lit "id", JInt 5); (lit "creator", JStr (lit "Ann"));
                     (lit "role", JList [JDict [(lit "name", JStr (lit "Writer"))];
                                         JDict [(lit "name", JStr (lit "Artist"))]])])
             (lit "role") (JList []) = Ok roles
         /\ iter roles = Ok rl /\ List.length ts = (5 + 2 * List.length rl)%nat.
Proof.
  eexists; split; [reflexivity |].
  apply (credit_triples_per_role ascii_isprintable (JInt 1) _ 0); reflexivity.
Defined.

Lemma utf8_encode_surrogate s c :
  In c s -> (55296 <= c <= 57343)%N -> exists e, utf8_encode s = Err e.
Proof.
  induction s as [| x s IH]; intros Hin Hc; [destruct Hin |].
  cbn [utf8_encode].
  destruct Hin as [-> | Hin].
  - assert (U : utf8_char c = Err UnicodeEncodeError).
    { unfold utf8_char.
      destruct (N.ltb_spec c 128); [lia |].
      destruct (N.ltb_spec c 2048); [lia |].
      replace ((55296 <=? c) && (c <=? 57343))%N with true; [reflexivity |].
      symmetry; apply andb_true_intro; split; apply N.leb_le; lia. }
    rewrite U; eexists; reflexivity.
  - destruct (utf8_char x); cbn [bind]; [| eexists; reflexivity].
    destruct (IH Hin Hc) as [e ->]; eexists; reflexivity.
Qed.

Lemma replace_char_keeps a b s c : In c s -> c <> a -> In c (replace_char a b s).
Proof.
  intros H Ha; unfold replace_char; apply in_map_iff; exists c; split; [| exact H].
  destruct (N.eqb_spec c a); [contradiction | reflexivity].
Qed.

(** [safe_uri] of a string holding a lone surrogate raises. *)
Lemma safe_uri_surrogate s c :
  In c s -> (55296 <= c <= 57343)%N -> safe_uri s = Err UnicodeEncodeError.
Proof.
  intros H Hc.
  destruct (safe_uri s) as [y | e] eqn:E.
  - exfalso; unfold safe_uri, quote in E.
    assert (Hs : ch " " = 32%N /\ ch "/" = 47%N /\ ch ":" = 58%N) by (repeat split; reflexivity).
    assert (H' : In c (replace_char (ch ":") (ch "_")
                   (replace_char (ch "/") (ch "_") (replace_char (ch " ") (ch "_") s))))
      by (repeat apply replace_char_keeps; auto; lia).
    destruct (replace_char _ _ _) as [| x r]; [destruct H' |].
    destruct (utf8_encode_surrogate _ _ H' Hc) as [e' E']; rewrite E' in E; discriminate E.
  - f_equal; eapply SafeUri.safe_uri_error; exact E.
Qed.

(** [team_data.get("id", safe_uri(team_data["name"]))] and its universe
    counterpart evaluate the default before looking at ["id"]: a team or
    universe record whose name holds a lone surrogate makes its generator
    raise [UnicodeEncodeError], even when the record has an id. *)
Theorem surrogate_name_aborts_team_and_universe low pr kv s c :
  dict_lookup (lit "name") kv = Some (JStr s) -> In c s -> (55296 <= c <= 57343)%N ->
  generate_group_triples pr (JDict kv) = Err UnicodeEncodeError
  /\ generate_universe_triples low pr (JDict kv) = Err UnicodeEncodeError.
Proof.
  intros L H Hc; pose proof (safe_uri_surrogate s c H Hc) as S.
  split.
  - unfold generate_group_triples; cbv beta iota; unfold getitem; rewrite L; cbn [bind].
    unfold safe_uri_v; cbn [py_str bind]; rewrite S; reflexivity.
  - unfold generate_universe_triples; rewrite Generators.get_dict, L; cbn [bind].
    unfold safe_uri_v; cbn [py_str bind]; rewrite S; reflexivity.
Qed.

Lemma surrogate_name_aborts_team_and_universe_witness :
  generate_group_triples ascii_isprintable
    (JDict [(lit "id", JInt 1); (lit "name", JStr [55296%N])]) = Err UnicodeEncodeError
  /\ generate_universe_triples ascii_lower ascii_isprintable
       (JDict [(lit "id", JInt 1); (lit "name", JStr [55296%N])]) = Err UnicodeEncodeError.
Proof.
  apply (surrogate_name_aborts_team_and_universe ascii_lower ascii_isprintable _ [55296%N] 55296%N);
    [reflexivity | left; reflexivity | lia].
Defined.

(** [char_data["name"].lower()] runs after all the other triples of a
    character are built: a character record whose ["name"] is absent or not a
    string makes [generate_character_triples] raise, whatever its id. *)
Theorem character_name_not_string_fails low pr kv sid iid :
  (forall s, dict_lookup (lit "name") kv <> Some (JStr s)) ->
  exists e, generate_character_triples low pr (JDict kv) sid iid = Err e.
Proof.
  intros Hn; unfold generate_character_triples; cbv zeta.
  apply bind_errs; intros ? _.
  apply bind_errs; intros ? _.
  apply bind_errs; intros n Gn.
  assert (Ln : lower_v low n = Err AttributeError).
  { apply lower_v_not_str; unfold getitem in Gn.
    destruct (dict_lookup (lit "name") kv) as [v |] eqn:D; [| discriminate Gn].
    apply ok_inj in Gn; subst v; destruct n; try exact I; exact (Hn s eq_refl). }
  repeat first [ apply bind_errs_l; exists AttributeError; exact Ln
               | apply bind_errs; intros ? _ ].
Qed.

Lemma character_name_not_string_fails_witness :
  exists e, generate_character_triples ascii_lower ascii_isprintable
              (JDict [(lit "id", JInt 3); (lit "name", JInt 616)]) JNull JNull = Err e.
Proof.
  apply (character_name_not_string_fails ascii_lower ascii_isprintable _ JNull JNull).
  intros s; simpl; discriminate.
Defined.

(** With no ["series"] (series type [""]) and a truthy ["page_count"] that is
    not a number (a non-empty string, list or dict), [infer_format_class]
    compares it with [100] and raises [TypeError]; [process_issue] then
    raises on that issue. *)
Theorem format_class_non_numeric_page_count low pr kv v :
  low [] = [] ->
  dict_lookup (lit "series") kv = None ->
  dict_lookup (lit "page_count") kv = Some v -> truthy v = true ->
  (forall z, v <> JInt z) -> (forall f, v <> JFloat f) -> (forall b, v <> JBool b) ->
  infer_format_class low (JDict kv) = Err TypeError
  /\ exists e, process_issue low pr (JDict kv) = Err e.
Proof.
  intros Hlow Ls Lp Tv Ni Nf Nb.
  assert (INF : infer_format_class low (JDict kv) = Err TypeError).
  { unfold infer_format_class; rewrite Generators.get_dict, Ls; cbn [bind get dict_lookup lower_v].
    rewrite Hlow, Lp; cbn [bind]; rewrite Tv.
    destruct v as [| b | z | f | t | l | kv']; try discriminate Tv;
      try (exfalso; first [exact (Ni _ eq_refl) | exact (Nf _ eq_refl) | exact (Nb _ eq_refl)]); cbv beta iota; rewrite Tv; reflexivity. }
  split; [exact INF |].
  unfold process_issue.
  do 4 (apply bind_errs; intros ? _).
  apply bind_errs_l.
  unfold generate_issue_triples; cbv zeta.
  repeat first [ apply bind_errs_l; exists TypeError; exact INF
               | apply bind_errs; intros ? _ ].
Qed.

Lemma format_class_non_numeric_page_count_witness :
  infer_format_class ascii_lower (JDict [(lit "id", JInt 4); (lit "page_count", JStr (lit "120"))])
    = Err TypeError
  /\ exists e, process_issue ascii_lower ascii_isprintable
                 (JDict [(lit "id", JInt 4); (lit "page_count", JStr (lit "120"))]) = Err e.
Proof.
  apply (format_class_non_numeric_page_count ascii_lower ascii_isprintable _ (JStr (lit "120")));
    [reflexivity | reflexivity | reflexivity | reflexivity
    | intros z; discriminate | intros f; discriminate | intros b; discriminate].
Defined.

Lemma issue_triples_at_least_seven low pr issue t :
  generate_issue_triples low pr issue = Ok t -> (7 <= List.length t)%nat.
Proof.
  unfold generate_issue_triples; intros H; Generators.run_binds H.
  apply ok_inj in H; subst t; rewrite !length_app; cbn [List.length]; lia.
Qed.

(** An issue that [process_issue] accepts always gives exactly one update
    block, never nothing: the line [INSERT DATA {], each of at least seven
    triples (the issue's type, manifestation and format triples) on a line of
    its own indented by two spaces, and the closing [} ;] line. *)
Theorem process_issue_single_block low pr issue lines :
  process_issue low pr issue = Ok lines ->
  exists ts, (7 <= List.length ts)%nat
    /\ lines = (lit "INSERT DATA {" ++ [10%N])
                 :: map (fun t => lit "  " ++ t ++ [10%N]) ts ++ [block_end].
Proof.
  unfold process_issue; intros H; Generators.run_binds H.
  match goal with E : generate_issue_triples _ _ _ = Ok _ |- _ =>
    pose proof (issue_triples_at_least_seven _ _ _ _ E) as L7 end.
  match type of H with (match ?l with [] => _ | _ :: _ => _ end) = _ =>
    destruct l as [| t0 ts0] eqn:T end.
  - apply (f_equal (@List.length _)) in T; rewrite !length_app in T; cbn [List.length] in T; lia.
  - apply ok_inj in H; subst lines; exists (t0 :: ts0); split; [| reflexivity].
    rewrite <- T, !length_app; lia.
Qed.

Lemma process_issue_single_block_witness :
  exists lines, process_issue ascii_lower ascii_isprintable (id_val 1) = Ok lines
    /\ exists ts, (7 <= List.length ts)%nat
         /\ lines = (lit "INSERT DATA {" ++ [10%N])
                      :: map (fun t => lit "  " ++ t ++ [10%N]) ts ++ [block_end].
Proof.
  eexists; split; [reflexivity |].
  apply (process_issue_single_block ascii_lower ascii_isprintable (id_val 1)); reflexivity.
Defined.

End GeneratorsExtra.

Module DiagExtra.

Lemma diag_warnings_app a b : diag_warnings (a ++ b) = (diag_warnings a + diag_warnings b)%nat.
Proof. unfold diag_warnings; rewrite filter_app, length_app; reflexivity. Qed.

Lemma progress_values_app a b : progress_values (a ++ b) = progress_values a ++ progress_values b.
Proof. unfold progress_values; apply flat_map_app. Qed.

Lemma warnings_cons_warn r : Stream.warnings (Stream.Warn :: r) = S (Stream.warnings r).
Proof. reflexivity. Qed.

Lemma warnings_cons_yield j r : Stream.warnings (Stream.Yield j :: r) = Stream.warnings r.
Proof. reflexivity. Qed.

Lemma progress_upto_succ c : 0 <= c ->
  progress_upto (c + 1) = progress_upto c ++ (if (c + 1) mod 100 =? 0 then [c + 1] else []).
Proof.
  intros Hc; unfold progress_upto.
  assert (Q : 0 <= c / 100) by (apply Z.div_pos; lia).
  pose proof (Z.div_mod c 100 ltac:(lia)) as Dc.
  pose proof (Z.mod_pos_bound c 100 ltac:(lia)) as Mc.
  pose proof (Z.div_mod (c + 1) 100 ltac:(lia)) as Dc1.
  pose proof (Z.mod_pos_bound (c + 1) 100 ltac:(lia)) as Mc1.
  destruct (Z.eqb_spec ((c + 1) mod 100) 0) as [M | M].
  - assert (E : (c + 1) / 100 = c / 100 + 1) by nia.
    rewrite E, Z2Nat.inj_add, seq_app, map_app by lia.
    f_equal; change (Z.to_nat 1) with 1%nat; cbn [seq map]; f_equal; lia.
  - assert (E : (c + 1) / 100 = c / 100) by nia.
    rewrite E, app_nil_r; reflexivity.
Qed.

(** The diagnostics a loop that ends normally adds: one warning per [Warn]
    event, and the progress counts passed on the way. *)
Lemma loop_diags low pr skip evs : forall sk c buf err b' c' err',
  0 <= c ->
  main_loop low pr skip sk c evs buf err = (b', c', err', None) ->
  diag_warnings err' = (diag_warnings err + Stream.warnings evs)%nat
  /\ (progress_values err = progress_upto c -> progress_values err' = progress_upto c')
  /\ (Forall not_total err -> Forall not_total err').
Proof.
  induction evs as [| [j |] evs IH]; intros sk c buf err b' c' err' Hc H; cbn [main_loop] in H.
  - injection H as _ <- <-; cbn; split; [lia | auto].
  - rewrite warnings_cons_yield.
    destruct (sk <? skip); [exact (IH _ _ _ _ _ _ _ Hc H) |].
    destruct (process_issue low pr j) as [lines | e]; [| discriminate H].
    apply IH in H; [| lia]; destruct H as (W & P & T); split; [| split].
    + rewrite W; destruct (_ =? 0); [rewrite diag_warnings_app |]; cbn; lia.
    + intros Pc; apply P.
      rewrite progress_upto_succ, <- Pc by exact Hc.
      destruct (_ =? 0); [rewrite progress_values_app |]; cbn; [reflexivity | rewrite app_nil_r; reflexivity].
    + intros Tc; apply T.
      destruct (_ =? 0); [apply Forall_app; split; [exact Tc | repeat constructor] | exact Tc].
  - rewrite warnings_cons_warn.
    apply IH in H; [| exact Hc]; destruct H as (W & P & T); split; [| split].
    + rewrite W, diag_warnings_app; cbn; lia.
    + intros Pc; apply P; rewrite progress_values_app, Pc; cbn; apply app_nil_r.
    + intros Tc; apply T; apply Forall_app; split; [exact Tc | repeat constructor].
Qed.

(** What [main] writes to [sys.stderr] when it ends normally: before the
    final total [n], one ["Warning: Failed to parse object"] line per
    segment the stream dropped, and the progress lines
    ["Processed 100 issues..."], ["Processed 200 issues..."], ... for every
    multiple of 100 up to [n], in increasing order, and nothing else. *)
Theorem main_diagnostics_summary low pr f text limit skip :
  raised (main low pr f text limit skip) = None ->
  exists ds n, diagnostics (main low pr f text limit skip) = ds ++ [DTotal n]
    /\ Forall not_total ds
    /\ diag_warnings ds = Stream.warnings (fst (Stream.stream_json_array text limit))
    /\ progress_values ds = progress_upto n.
Proof.
  unfold main.
  destruct (Stream.stream_json_array text limit) as [evs sexn]; cbn [fst].
  destruct (main_loop low pr skip 0 0 evs [] []) as [[[buf ic] err] lexn] eqn:L.
  destruct lexn as [x |]; [discriminate |].
  destruct sexn as [x |]; [discriminate |].
  intros _; exists err, ic; cbn [diagnostics]; split; [reflexivity |].
  destruct (loop_diags low pr skip evs 0 0 [] [] buf ic err (Z.le_refl 0) L) as (W & P & T).
  split; [apply T; constructor |].
  split; [exact W | apply P; reflexivity].
Qed.

Lemma main_diagnostics_summary_witness :
  raised (main ascii_lower ascii_isprintable (lit "comics.json")
            (array_text [id_obj "1"; lit "{" ++ [dq] ++ lit "id" ++ [dq] ++ lit ": }"; id_obj "3"])
            None 0) = None /\
  exists ds n,
    diagnostics (main ascii_lower ascii_isprintable (lit "comics.json")
      (array_text [id_obj "1"; lit "{" ++ [dq] ++ lit "id" ++ [dq] ++ lit ": }"; id_obj "3"])
      None 0) = ds ++ [DTotal n]
    /\ Forall not_total ds
    /\ diag_warnings ds = Stream.warnings (fst (Stream.stream_json_array
         (array_text [id_obj "1"; lit "{" ++ [dq] ++ lit "id" ++ [dq] ++ lit ": }"; id_obj "3"])
         None))
    /\ progress_values ds = progress_upto n.
Proof.
  assert (R : raised (main ascii_lower ascii_isprintable (lit "comics.json")
            (array_text [id_obj "1"; lit "{" ++ [dq] ++ lit "id" ++ [dq] ++ lit ": }"; id_obj "3"])
            None 0) = None) by (vm_compute; reflexivity).
  split; [exact R | exact (main_diagnostics_summary _ _ _ _ _ _ R)].
Defined.

End DiagExtra.
